(** * Dependency-version updater: update_deps.py and update_deps_stable.py

    A shallow embedding of the two scripts and the properties of their
    manifest rewriting and registry lookup.

    Conventions of the embedding.
    - A Python [str] is the list of its code points.
    - What a stream receives is the list of the texts handed to [print],
      one element per call, without the newline [print] adds.
    - [process_file] works on the list [readlines()] returned and yields
      the list handed to [writelines], with the trace of the lookups and
      of the lines printed to standard output, in order.
    - In [process_file] the lookup [get_latest_version] is a parameter:
      a function from a package name to [None] or a version text.
    - [process_manifest] is [process_file] with the file around it: the
      content of the manifest is read in text mode, the loop runs on its
      lines, and what it appends is written in text mode. *)

From Stdlib Require Import String Ascii.
From Stdlib Require Import List Bool Arith NArith ZArith Lia.
From Stdlib Require Import Floats.SpecFloat.
Import ListNotations.

Set Implicit Arguments.

(* ================================================================== *)
(** ** Python text *)

Module Py.

Definition char := N.
Definition str := list char.

Definition ch (a : ascii) : char := N_of_ascii a.
Arguments ch a%_char.

(** A literal of the source, character per character. *)
Definition lit (s : string) : str := map ch (list_ascii_of_string s).
Arguments lit s%_string : simpl never.

(** The double quote, and the newline escape. *)
Definition dquote : char := 34%N.
Definition newline : char := 10%N.

Fixpoint str_eqb (a b : str) : bool :=
  match a, b with
  | [], [] => true
  | x :: a', y :: b' => (x =? y)%N && str_eqb a' b'
  | _, _ => false
  end.

(** [str.isspace] on one character, which is also the class [\s] of [re]
    on a [str] pattern: the white space of Unicode. *)
Definition isspace (c : char) : bool :=
  ((9 <=? c) && (c <=? 13) ||
   (28 <=? c) && (c <=? 32) ||
   (c =? 133) || (c =? 160) || (c =? 5760) ||
   (8192 <=? c) && (c <=? 8202) ||
   (c =? 8232) || (c =? 8233) || (c =? 8239) || (c =? 8287) ||
   (c =? 12288))%N.

Fixpoint lstrip (s : str) : str :=
  match s with
  | c :: s' => if isspace c then lstrip s' else s
  | [] => []
  end.

Definition rstrip (s : str) : str := rev (lstrip (rev s)).

(** [s.strip()]: white space removed at both ends. *)
Definition strip (s : str) : str := rstrip (lstrip s).

Fixpoint startswith (s prefix : str) {struct prefix} : bool :=
  match prefix, s with
  | [], _ => true
  | p :: prefix', c :: s' => (c =? p)%N && startswith s' prefix'
  | _ :: _, [] => false
  end.

Definition endswith (s suffix : str) : bool :=
  startswith (rev s) (rev suffix).

(** [not s] for a text. *)
Definition is_empty (s : str) : bool :=
  match s with [] => true | _ :: _ => false end.

(** [needle in s] for two texts. *)
Fixpoint str_contains (s needle : str) : bool :=
  startswith s needle ||
  match s with
  | [] => false
  | _ :: s' => str_contains s' needle
  end.

(** *** What the lookup hands to the caller: [None] or a text *)

(** Truth value: [None] and the empty text are false. *)
Definition truthy (v : option str) : bool :=
  match v with
  | Some (_ :: _) => true
  | _ => false
  end.

(** [v != s] for a text [s]. *)
Definition differs (v : option str) (s : str) : bool :=
  match v with
  | Some t => negb (str_eqb t s)
  | None => true
  end.

(** A value inside an f-string. *)
Definition format (v : option str) : str :=
  match v with
  | Some t => t
  | None => lit "None"
  end.

(** *** Decoded JSON, exceptions *)

#[local] Set Warnings "-register-all".

Inductive pyval :=
| PNone
| PBool (b : bool)
| PInt (z : Z)
| PFloat (f : spec_float)
| PStr (s : str)
| PList (l : list pyval)
| PDict (d : list (str * pyval)).   (* the items, in the order of insertion *)

Inductive exn :=
| Raised (cls msg : str)            (* raised inside requests *)
| KeyError (key : str)
| TypeError (v : pyval)             (* an operation [v] does not support *)
| AttributeError (v : pyval) (attr : str).

Inductive result (A : Type) :=
| Ok (a : A)
| Raise (e : exn).
Arguments Ok {A} a.
Arguments Raise {A} e.

Definition bind {A B} (m : result A) (k : A -> result B) : result B :=
  match m with
  | Ok a => k a
  | Raise e => Raise e
  end.

Notation "x <- m ;; k" := (bind m (fun x => k))
  (at level 61, m at next level, right associativity).

Fixpoint lookup (key : str) (d : list (str * pyval)) : option pyval :=
  match d with
  | [] => None
  | (k, v) :: d' => if str_eqb k key then Some v else lookup key d'
  end.

(** [v[key]] for a text [key]. *)
Definition getitem (v : pyval) (key : str) : result pyval :=
  match v with
  | PDict d =>
      match lookup key d with
      | Some x => Ok x
      | None => Raise (KeyError key)
      end
  | _ => Raise (TypeError v)
  end.

(** [v.get(key, default)]: only a dict has the method. *)
Definition get (v : pyval) (key : str) (default : pyval) : result pyval :=
  match v with
  | PDict d =>
      match lookup key d with
      | Some x => Ok x
      | None => Ok default
      end
  | _ => Raise (AttributeError v (lit "get"))
  end.

(** The values [for x in v] goes through. *)
Definition iter (v : pyval) : result (list pyval) :=
  match v with
  | PList l => Ok l
  | PDict d => Ok (map (fun kv => PStr (fst kv)) d)
  | PStr s => Ok (map (fun c => PStr [c]) s)
  | _ => Raise (TypeError v)
  end.

(** Truth value of a decoded value. *)
Definition is_true (v : pyval) : bool :=
  match v with
  | PNone => false
  | PBool b => b
  | PInt z => negb (z =? 0)%Z
  | PFloat (S754_zero _) => false
  | PFloat _ => true
  | PStr s => negb (is_empty s)
  | PList l => match l with [] => false | _ => true end
  | PDict d => match d with [] => false | _ => true end
  end.

(** [x == s] for a text [s]. *)
Definition eq_str (x : pyval) (s : str) : bool :=
  match x with
  | PStr t => str_eqb t s
  | _ => false
  end.

(** [needle in v] for a text [needle]. *)
Definition contains (needle : str) (v : pyval) : result bool :=
  match v with
  | PStr s => Ok (str_contains s needle)
  | PList l => Ok (existsb (fun x => eq_str x needle) l)
  | PDict d => Ok (existsb (fun kv => str_eqb (fst kv) needle) d)
  | _ => Raise (TypeError v)
  end.

(** What [requests.get] returns: the status and what [.json()] does. *)
Record response := {
  status_code : Z;
  json : result pyval
}.

End Py.

Import Py.

(* ================================================================== *)
(** ** The fragment of [re] the scripts use *)

Module Re.

(** A pattern is a sequence of nodes; every repetition in the scripts'
    patterns is a greedy repetition of a one-character class, and every
    group encloses exactly one such repetition. *)
Inductive node :=
| Bol                                        (* ^ *)
| Lit (c : char)                             (* one literal character *)
| Many (cls : char -> bool) (min : nat)      (* star: min 0; plus: min 1 *)
| Group (cls : char -> bool) (min : nat).    (* the same, in a group *)

Definition pattern := list node.

(** Length of the longest prefix of [s] made of characters of [cls]. *)
Fixpoint span (cls : char -> bool) (s : str) : nat :=
  match s with
  | c :: s' => if cls c then S (span cls s') else 0
  | [] => 0
  end.

(** A greedy repetition: the counts [k], [k-1], ..., [min] in this order,
    the first for which the rest of the pattern matches wins. *)
Fixpoint greedy (A : Type) (min k : nat) (rest : nat -> option A) : option A :=
  if k <? min then None
  else
    match rest k with
    | Some r => Some r
    | None =>
        match k with
        | S k' => greedy min k' rest
        | O => None
        end
    end.

(** The backtracking matcher, from position [pos] of the text, of which
    [s] is what remains; the result holds the groups, in order. *)
Fixpoint exec (re : pattern) (pos : nat) (s : str) {struct re}
  : option (list str) :=
  match re with
  | [] => Some []
  | Bol :: re' => if pos =? 0 then exec re' pos s else None
  | Lit c :: re' =>
      match s with
      | c' :: s' => if (c' =? c)%N then exec re' (S pos) s' else None
      | [] => None
      end
  | Many cls min :: re' =>
      greedy min (span cls s) (fun k => exec re' (pos + k) (skipn k s))
  | Group cls min :: re' =>
      greedy min (span cls s)
        (fun k =>
           match exec re' (pos + k) (skipn k s) with
           | Some gs => Some (firstn k s :: gs)
           | None => None
           end)
  end.

(** [re.match(pattern, text)]: a match at the start of the text. *)
Definition re_match (re : pattern) (text : str) : option (list str) :=
  exec re 0 text.

(** [m.group(i)] for [i >= 1]. *)
Definition group (m : list str) (i : nat) : str := nth (i - 1) m [].

(** The literal characters of a text, one node each. *)
Definition Lits (s : str) : pattern := map Lit s.

(** The classes of the scripts' patterns. *)
Definition name_char (c : char) : bool :=     (* [a-z0-9-_] *)
  ((97 <=? c) && (c <=? 122) || (48 <=? c) && (c <=? 57) ||
   (c =? 45) || (c =? 95))%N.

Definition not_dquote (c : char) : bool :=    (* any but the double quote *)
  negb (c =? dquote)%N.

Definition dot (c : char) : bool :=           (* . without DOTALL *)
  negb (c =? newline)%N.

End Re.

Import Re.

(* ================================================================== *)
(** ** The line rewriting of both scripts *)

Inductive event :=
| Lookup (name : str)        (* a call of get_latest_version *)
| Print (text : str).        (* a line printed to standard output *)

Record loop_state := {
  in_deps : bool;
  new_lines : list str;
  trace : list event
}.

Definition append_line (st : loop_state) (line : str) : loop_state :=
  {| in_deps := in_deps st;
     new_lines := new_lines st ++ [line];
     trace := trace st |}.

Definition emit (st : loop_state) (e : event) : loop_state :=
  {| in_deps := in_deps st;
     new_lines := new_lines st;
     trace := trace st ++ [e] |}.

Definition init : loop_state :=
  {| in_deps := false; new_lines := []; trace := [] |}.

(** *** update_deps.py *)

Module UpdateDeps.

Section Lookup.

(** [requests.get(url, headers={'User-Agent': 'ms-updater'}, timeout=5)]:
    a response, or the exception it raised. *)
Variable requests_get : str -> result response.

(** [str(e)], the text of an exception. *)
Variable exn_str : exn -> str.

(** What is returned from the decoded body [data]. *)
Definition from_data (data : pyval) : result pyval :=
  crate <- getitem data (lit "crate") ;;
  getitem crate (lit "max_version").

(** The body of [try]; a result [None] of it stands for leaving the
    block without [return]. *)
Definition try_block (crate_name : str) : result (option pyval) :=
  let url := lit "https://crates.io/api/v1/crates/" ++ crate_name in
  response <- requests_get url ;;
  if (status_code response =? 200)%Z then
    data <- json response ;;
    v <- from_data data ;;
    Ok (Some v)
  else Ok None.

(** The value returned and what was printed to the error stream. *)
Definition get_latest_version (crate_name : str) : pyval * list str :=
  match try_block crate_name with
  | Ok (Some v) => (v, [])
  | Ok None => (PNone, [])
  | Raise e =>
      (PNone, [lit "Error fetching " ++ crate_name ++ lit ": " ++ exn_str e])
  end.

End Lookup.

(** The pattern of [update_line], with ANY for a starred dot:
    ^([a-z0-9-_]+)\s*=\s*(ANY)  *)
Definition update_line_re : pattern :=
  [Bol; Group name_char 1; Many isspace 0; Lit (ch "="); Many isspace 0;
   Group dot 0].

(** [update_line], which nothing calls: it returns its line on both
    paths. *)
Definition update_line (line : str) : str :=
  match re_match update_line_re (strip line) with
  | None => line
  | Some m =>
      let name := group m 1 in
      let rest := group m 2 in
      line
  end.

Definition dep_sections : list str :=
  [lit "[dependencies]"; lit "[dev-dependencies]"; lit "[build-dependencies]"].

(** The pattern of the inline table, written here with Q for the double
    quote and ANY for a starred dot:
    ^([a-z0-9-_]+)\s*=\s*\{\s*version\s*=\s*Q([^Q]+)Q(ANY)\}  *)
Definition inline_re : pattern :=
  [Bol; Group name_char 1; Many isspace 0; Lit (ch "="); Many isspace 0;
   Lit (ch "{"); Many isspace 0] ++ Lits (lit "version") ++
  [Many isspace 0; Lit (ch "="); Many isspace 0; Lit dquote;
   Group not_dquote 1; Lit dquote; Group dot 0; Lit (ch "}")].

(** The pattern of the simple string:  ^([a-z0-9-_]+)\s*=\s*Q([^Q]+)Q  *)
Definition str_re : pattern :=
  [Bol; Group name_char 1; Many isspace 0; Lit (ch "="); Many isspace 0;
   Lit dquote; Group not_dquote 1; Lit dquote].

Section Loop.

Variable get_latest_version : str -> option str.

(** One turn of [for line in lines]. *)
Definition loop_body (st : loop_state) (line : str) : loop_state :=
  let stripped := strip line in
  if startswith stripped (lit "[") && endswith stripped (lit "]") then
    {| in_deps := existsb (startswith stripped) dep_sections;
       new_lines := new_lines st ++ [line];
       trace := trace st |}
  else if negb (in_deps st) || startswith stripped (lit "#")
          || is_empty stripped then
    append_line st line
  else
    match re_match inline_re stripped with
    | Some match_inline =>
        let name := group match_inline 1 in
        let current_ver := group match_inline 2 in
        let suffix := group match_inline 3 in
        let latest := get_latest_version name in
        let st := emit st (Lookup name) in
        if truthy latest && differs latest current_ver then
          let st :=
            emit st (Print (lit "Updating " ++ name ++ lit ": " ++ current_ver
                              ++ lit " -> " ++ format latest)) in
          append_line st
            (name ++ lit " = { version = " ++ [dquote] ++ format latest
                  ++ [dquote] ++ suffix ++ lit "}" ++ [newline])
        else append_line st line
    | None =>
        match re_match str_re stripped with
        | Some match_str =>
            let name := group match_str 1 in
            let current_ver := group match_str 2 in
            let latest := get_latest_version name in
            let st := emit st (Lookup name) in
            if truthy latest && differs latest current_ver then
              let st :=
                emit st (Print (lit "Updating " ++ name ++ lit ": "
                                  ++ current_ver ++ lit " -> "
                                  ++ format latest)) in
              append_line st
                (name ++ lit " = " ++ [dquote] ++ format latest ++ [dquote]
                      ++ [newline])
            else append_line st line
        | None => append_line st line
        end
    end.

(** The loop, from a given state. *)
Definition run (st : loop_state) (lines : list str) : loop_state :=
  fold_left loop_body lines st.

(** [lines] is what [readlines()] gave; the result holds what
    [writelines] receives, and the trace of the run. *)
Definition process_file (lines : list str) : list str * list event :=
  let st := run init lines in
  (new_lines st, trace st).

End Loop.

End UpdateDeps.

(** *** update_deps_stable.py *)

Module UpdateDepsStable.

Section Lookup.

(** [requests.get(url, headers={'User-Agent': 'ms-updater'}, timeout=5)]:
    a response, or the exception it raised. *)
Variable requests_get : str -> result response.

(** [str(e)], the text of an exception. *)
Variable exn_str : exn -> str.

(** The loop over [versions]: the [num] returned from inside the loop, or
    [None] when the loop ends without [return]. *)
Fixpoint first_stable (versions : list pyval) : result (option pyval) :=
  match versions with
  | [] => Ok None
  | v :: versions' =>
      num <- getitem v (lit "num") ;;
      yanked <- getitem v (lit "yanked") ;;
      if negb (is_true yanked) then
        hyphen <- contains (lit "-") num ;;
        if negb hyphen then Ok (Some num) else first_stable versions'
      else first_stable versions'
  end.

(** What is returned from the decoded body [data]. *)
Definition from_data (data : pyval) : result pyval :=
  versions <- get data (lit "versions") (PList []) ;;
  vs <- iter versions ;;
  found <- first_stable vs ;;
  match found with
  | Some num => Ok num
  | None =>
      crate <- getitem data (lit "crate") ;;
      getitem crate (lit "max_version")
  end.

(** The body of [try]; a result [None] of it stands for leaving the
    block without [return]. *)
Definition try_block (crate_name : str) : result (option pyval) :=
  let url := lit "https://crates.io/api/v1/crates/" ++ crate_name in
  response <- requests_get url ;;
  if (status_code response =? 200)%Z then
    data <- json response ;;
    v <- from_data data ;;
    Ok (Some v)
  else Ok None.

(** The value returned and what was printed to the error stream. *)
Definition get_latest_version (crate_name : str) : pyval * list str :=
  match try_block crate_name with
  | Ok (Some v) => (v, [])
  | Ok None => (PNone, [])
  | Raise e =>
      (PNone, [lit "Error fetching " ++ crate_name ++ lit ": " ++ exn_str e])
  end.

End Lookup.

Definition dep_sections : list str :=
  [lit "[dependencies]"; lit "[dev-dependencies]"; lit "[build-dependencies]"].

(** The pattern of the inline table, written here with Q for the double
    quote and ANY for a starred dot:
    ^([a-z0-9-_]+)\s*=\s*\{\s*version\s*=\s*Q([^Q]+)Q(ANY)\}  *)
Definition inline_re : pattern :=
  [Bol; Group name_char 1; Many isspace 0; Lit (ch "="); Many isspace 0;
   Lit (ch "{"); Many isspace 0] ++ Lits (lit "version") ++
  [Many isspace 0; Lit (ch "="); Many isspace 0; Lit dquote;
   Group not_dquote 1; Lit dquote; Group dot 0; Lit (ch "}")].

(** The pattern of the simple string:  ^([a-z0-9-_]+)\s*=\s*Q([^Q]+)Q  *)
Definition str_re : pattern :=
  [Bol; Group name_char 1; Many isspace 0; Lit (ch "="); Many isspace 0;
   Lit dquote; Group not_dquote 1; Lit dquote].

Section Loop.

Variable get_latest_version : str -> option str.

(** One turn of [for line in lines]. *)
Definition loop_body (st : loop_state) (line : str) : loop_state :=
  let stripped := strip line in
  if startswith stripped (lit "[") && endswith stripped (lit "]") then
    {| in_deps := existsb (startswith stripped) dep_sections;
       new_lines := new_lines st ++ [line];
       trace := trace st |}
  else if negb (in_deps st) || startswith stripped (lit "#")
          || is_empty stripped then
    append_line st line
  else
    match re_match inline_re stripped with
    | Some match_inline =>
        let name := group match_inline 1 in
        let current_ver := group match_inline 2 in
        let suffix := group match_inline 3 in
        let latest := get_latest_version name in
        let st := emit st (Lookup name) in
        if truthy latest && differs latest current_ver then
          let st :=
            emit st (Print (lit "Updating " ++ name ++ lit ": " ++ current_ver
                              ++ lit " -> " ++ format latest)) in
          append_line st
            (name ++ lit " = { version = " ++ [dquote] ++ format latest
                  ++ [dquote] ++ suffix ++ lit "}" ++ [newline])
        else append_line st line
    | None =>
        match re_match str_re stripped with
        | Some match_str =>
            let name := group match_str 1 in
            let current_ver := group match_str 2 in
            let latest := get_latest_version name in
            let st := emit st (Lookup name) in
            if truthy latest && differs latest current_ver then
              let st :=
                emit st (Print (lit "Updating " ++ name ++ lit ": "
                                  ++ current_ver ++ lit " -> "
                                  ++ format latest)) in
              append_line st
                (name ++ lit " = " ++ [dquote] ++ format latest ++ [dquote]
                      ++ [newline])
            else append_line st line
        | None => append_line st line
        end
    end.

(** The loop, from a given state. *)
Definition run (st : loop_state) (lines : list str) : loop_state :=
  fold_left loop_body lines st.

(** [lines] is what [readlines()] gave; the result holds what
    [writelines] receives, and the trace of the run. *)
Definition process_file (lines : list str) : list str * list event :=
  let st := run init lines in
  (new_lines st, trace st).

End Loop.

End UpdateDepsStable.

(* ================================================================== *)
(** ** Vocabulary of the statements *)

(** What it means for a pattern to match, whichever way the repetitions
    are cut: [matches re pos s gs] when [re] matches a prefix of [s],
    which starts at position [pos] of the text, with groups [gs]. *)
Inductive matches : pattern -> nat -> str -> list str -> Prop :=
| m_end pos s :
    matches [] pos s []
| m_bol re s gs :
    matches re 0 s gs -> matches (Bol :: re) 0 s gs
| m_lit c re pos s gs :
    matches re (S pos) s gs -> matches (Lit c :: re) pos (c :: s) gs
| m_many cls min re pos w s gs :
    forallb cls w = true -> min <= length w ->
    matches re (pos + length w) s gs ->
    matches (Many cls min :: re) pos (w ++ s) gs
| m_group cls min re pos w s gs :
    forallb cls w = true -> min <= length w ->
    matches re (pos + length w) s gs ->
    matches (Group cls min :: re) pos (w ++ s) (w :: gs).

(** The shape the simple-string pattern accepts, at the start of a text:
    a name of one or more of [a-z0-9-_], white space, the equals sign,
    white space, and between double quotes one or more characters other
    than the double quote; whatever follows the closing quote is [rest]. *)
Definition bare_string (t name V : str) : Prop :=
  exists ws1 ws2 rest,
    t = name ++ ws1 ++ [ch "="] ++ ws2 ++ [dquote] ++ V ++ [dquote] ++ rest /\
    name <> [] /\ forallb name_char name = true /\
    forallb isspace ws1 = true /\ forallb isspace ws2 = true /\
    V <> [] /\ forallb not_dquote V = true.

(** The shape of an inline table: [name = { version = "V" trailing }],
    with [trailing] free of newlines and whatever follows the closing
    brace in [rest]. *)
Definition inline_table (t name V trailing : str) : Prop :=
  exists ws1 ws2 ws3 ws4 ws5 rest,
    t = name ++ ws1 ++ [ch "="] ++ ws2 ++ [ch "{"] ++ ws3 ++ lit "version"
             ++ ws4 ++ [ch "="] ++ ws5 ++ [dquote] ++ V ++ [dquote]
             ++ trailing ++ [ch "}"] ++ rest /\
    name <> [] /\ forallb name_char name = true /\
    forallb isspace ws1 = true /\ forallb isspace ws2 = true /\
    forallb isspace ws3 = true /\ forallb isspace ws4 = true /\
    forallb isspace ws5 = true /\
    V <> [] /\ forallb not_dquote V = true /\
    forallb dot trailing = true.

(** [x] does not go on with a character of [cls]. *)
Definition stops (cls : char -> bool) (x : str) : Prop :=
  match x with
  | c :: _ => cls c = false
  | [] => True
  end.

(** The two scripts. *)
Inductive variant := Latest | Stable.

Definition loop_body (v : variant) :=
  match v with
  | Latest => UpdateDeps.loop_body
  | Stable => UpdateDepsStable.loop_body
  end.

Definition run (v : variant) :=
  match v with
  | Latest => UpdateDeps.run
  | Stable => UpdateDepsStable.run
  end.

Definition process_file (v : variant) :=
  match v with
  | Latest => UpdateDeps.process_file
  | Stable => UpdateDepsStable.process_file
  end.

Definition inline_re (v : variant) :=
  match v with
  | Latest => UpdateDeps.inline_re
  | Stable => UpdateDepsStable.inline_re
  end.

Definition str_re (v : variant) :=
  match v with
  | Latest => UpdateDeps.str_re
  | Stable => UpdateDepsStable.str_re
  end.

Definition get_latest_version (v : variant) :=
  match v with
  | Latest => UpdateDeps.get_latest_version
  | Stable => UpdateDepsStable.get_latest_version
  end.

Definition from_data (v : variant) :=
  match v with
  | Latest => UpdateDeps.from_data
  | Stable => UpdateDepsStable.from_data
  end.

(** The entry a trimmed line declares, as the loop reads it: the first of
    the two patterns that matches gives the form, and its groups the
    name, the declared version and, for an inline table, the trailing
    attributes. *)
Inductive entry :=
| InlineTable (name declared_version trailing_attrs : str)
| BareString (name declared_version : str).

Definition entry_name (e : entry) : str :=
  match e with
  | InlineTable name _ _ => name
  | BareString name _ => name
  end.

Definition entry_version (e : entry) : str :=
  match e with
  | InlineTable _ V _ => V
  | BareString _ V => V
  end.

Definition classify (v : variant) (stripped : str) : option entry :=
  match re_match (inline_re v) stripped with
  | Some m => Some (InlineTable (group m 1) (group m 2) (group m 3))
  | None =>
      match re_match (str_re v) stripped with
      | Some m => Some (BareString (group m 1) (group m 2))
      | None => None
      end
  end.

(** The text of a rebuilt line, by form. *)
Definition rebuilt (e : entry) (new_version : str) : str :=
  match e with
  | InlineTable name _ trailing_attrs =>
      name ++ lit " = { version = " ++ [dquote] ++ new_version ++ [dquote]
           ++ trailing_attrs ++ lit "}" ++ [newline]
  | BareString name _ =>
      name ++ lit " = " ++ [dquote] ++ new_version ++ [dquote] ++ [newline]
  end.

(** The diagnostic of a change. *)
Definition updating (name declared_version new_version : str) : str :=
  lit "Updating " ++ name ++ lit ": " ++ declared_version ++ lit " -> "
      ++ new_version.

(** A version of the registry's list as the stable policy reads it: its
    [num] and whether it is [yanked]; it qualifies when it is not yanked
    and its [num] holds no hyphen. *)
Definition is_version (x : pyval) (nv : str * bool) : Prop :=
  getitem x (lit "num") = Ok (PStr (fst nv)) /\
  getitem x (lit "yanked") = Ok (PBool (snd nv)).

Definition qualifies (nv : str * bool) : bool :=
  negb (snd nv) && forallb (fun c => negb (c =? ch "-")%N) (fst nv).

(** The state of the loop when it reaches line [i]. *)
Definition state_at (v : variant) (r : str -> option str)
  (lines : list str) (i : nat) : loop_state :=
  run v r init (firstn i lines).

(** One turn of the loop seen from a state that holds the flag only:
    the line it appends and the events it adds. *)
Definition blank (d : bool) : loop_state :=
  {| in_deps := d; new_lines := []; trace := [] |}.

Definition step (v : variant) (r : str -> option str) (d : bool)
  (line : str) : loop_state :=
  loop_body v r (blank d) line.

(** The line written for an input line met with the flag at [d]. *)
Definition line_out (v : variant) (r : str -> option str) (d : bool)
  (line : str) : str :=
  match new_lines (step v r d line) with
  | out :: _ => out
  | [] => line
  end.

(** The flag after a line, which no lookup influences. *)
Definition next_deps (v : variant) (d : bool) (line : str) : bool :=
  in_deps (step v (fun _ => None) d line).

(** The flag after a run of lines. *)
Definition flag_after (v : variant) (d : bool) (lines : list str) : bool :=
  fold_left (next_deps v) lines d.

(** The lines written and the events of a run of lines, turn by turn. *)
Fixpoint outputs (v : variant) (r : str -> option str) (d : bool)
  (lines : list str) : list str :=
  match lines with
  | [] => []
  | line :: lines' =>
      line_out v r d line :: outputs v r (next_deps v d line) lines'
  end.

Fixpoint events (v : variant) (r : str -> option str) (d : bool)
  (lines : list str) : list event :=
  match lines with
  | [] => []
  | line :: lines' =>
      trace (step v r d line) ++ events v r (next_deps v d line) lines'
  end.

(** The bracketed header test of the loop. *)
Definition is_header (stripped : str) : bool :=
  startswith stripped (lit "[") && endswith stripped (lit "]").

(** The test of the lines the loop passes on without reading them. *)
Definition is_skipped (d : bool) (stripped : str) : bool :=
  negb d || startswith stripped (lit "#") || is_empty stripped.

(** The lines printed to standard output, out of a trace. *)
Fixpoint printed (t : list event) : list str :=
  match t with
  | [] => []
  | Print text :: t' => text :: printed t'
  | Lookup _ :: t' => printed t'
  end.

(** The names looked up, out of a trace. *)
Fixpoint looked_up (t : list event) : list str :=
  match t with
  | [] => []
  | Lookup name :: t' => name :: looked_up t'
  | Print _ :: t' => looked_up t'
  end.

(** The diagnostic of a failed lookup. *)
Definition error_fetching (exn_str : exn -> str) (name : str) (e : exn) : str :=
  lit "Error fetching " ++ name ++ lit ": " ++ exn_str e.

(** An entry with another version in place of the declared one. *)
Definition with_version (e : entry) (new_version : str) : entry :=
  match e with
  | InlineTable name _ trailing_attrs =>
      InlineTable name new_version trailing_attrs
  | BareString name _ => BareString name new_version
  end.

(** The trailing attributes of an entry; none for a simple string. *)
Definition entry_trailing (e : entry) : str :=
  match e with
  | InlineTable _ _ trailing_attrs => trailing_attrs
  | BareString _ _ => []
  end.

(** No answer of the lookup holds a double quote. *)
Definition quote_free (r : str -> option str) : Prop :=
  forall name latest, r name = Some latest -> forallb not_dquote latest = true.

(** The shape of an inline table with what follows the closing brace
    named. *)
Definition inline_table_with (t name V trailing rest : str) : Prop :=
  exists ws1 ws2 ws3 ws4 ws5,
    t = name ++ ws1 ++ [ch "="] ++ ws2 ++ [ch "{"] ++ ws3 ++ lit "version"
             ++ ws4 ++ [ch "="] ++ ws5 ++ [dquote] ++ V ++ [dquote]
             ++ trailing ++ [ch "}"] ++ rest /\
    name <> [] /\ forallb name_char name = true /\
    forallb isspace ws1 = true /\ forallb isspace ws2 = true /\
    forallb isspace ws3 = true /\ forallb isspace ws4 = true /\
    forallb isspace ws5 = true /\
    V <> [] /\ forallb not_dquote V = true /\
    forallb dot trailing = true.

(** *** The file, read and written in text mode *)

(** The content of the manifest is its decoded text. [open] in text mode
    with the default [newline=None] translates, on reading, every line
    ending (carriage return and newline, carriage return alone, newline)
    into a newline, and, on writing, every newline into the line
    separator of the platform. *)
Definition cr : char := 13%N.

(** The translation on reading; [after_cr] tells that the character
    before was a carriage return, whose newline is already out. *)
Fixpoint translate_in (after_cr : bool) (s : str) : str :=
  match s with
  | [] => []
  | c :: s' =>
      if (c =? cr)%N then newline :: translate_in true s'
      else if (c =? newline)%N && after_cr then translate_in false s'
      else c :: translate_in false s'
  end.

Definition universal_newlines (s : str) : str := translate_in false s.

(** Cutting a text after each of its newlines. *)
Fixpoint splitlines (s : str) : list str :=
  match s with
  | [] => []
  | c :: s' =>
      if (c =? newline)%N then [c] :: splitlines s'
      else
        match splitlines s' with
        | [] => [[c]]
        | l :: ls => (c :: l) :: ls
        end
  end.

(** [f.readlines()] on a file of this content. *)
Definition readlines (content : str) : list str :=
  splitlines (universal_newlines content).

(** The translation on writing, with the line separator [linesep]. *)
Definition translate_out (linesep : str) (s : str) : str :=
  flat_map (fun c => if (c =? newline)%N then linesep else [c]) s.

(** The content of the file after [f.writelines(lines)]. *)
Definition writelines (linesep : str) (lines : list str) : str :=
  translate_out linesep (concat lines).

(** [process_file] from the content of the manifest to its content
    afterwards: the file is read, the loop runs, the file is written. *)
Definition process_manifest (v : variant) (linesep : str)
  (r : str -> option str) (content : str) : str * list event :=
  let lines := readlines content in
  (writelines linesep (fst (process_file v r lines)),
   snd (process_file v r lines)).

Definition not_cr (c : char) : bool := negb (c =? cr)%N.

(** Neither a newline nor a carriage return. *)
Definition not_eol (c : char) : bool :=
  negb (c =? newline)%N && negb (c =? cr)%N.

(** No answer of the lookup holds a newline or a carriage return. *)
Definition line_free (r : str -> option str) : Prop :=
  forall name latest, r name = Some latest -> forallb not_eol latest = true.

(** A line with its newline, and a last line without. *)
Definition terminated (l : str) : Prop :=
  exists body, l = body ++ [newline] /\ forallb not_eol body = true.

Definition open_line (l : str) : Prop :=
  l <> [] /\ forallb not_eol l = true.

(** Lines as [readlines] gives them. *)
Inductive well_split : list str -> Prop :=
| ws_nil : well_split []
| ws_open l : open_line l -> well_split [l]
| ws_cons l ls : terminated l -> well_split ls -> well_split (l :: ls).

(** The simple-string form as the specification words it: the trimmed text
    is [name = "V"] and nothing else, [V] being any run of characters
    other than the double quote, and the text holds no brace. *)
Definition bare_string_as_worded (t : str) : Prop :=
  exists name ws1 ws2 V,
    t = name ++ ws1 ++ [ch "="] ++ ws2 ++ [dquote] ++ V ++ [dquote] /\
    name <> [] /\ forallb name_char name = true /\
    forallb isspace ws1 = true /\ forallb isspace ws2 = true /\
    forallb not_dquote V = true /\
    forallb (fun c => negb (c =? ch "{")%N && negb (c =? ch "}")%N) t = true.

(** *** Sample manifests and lookups *)

(** A text between double quotes. *)
Definition quoted (s : str) : str := [dquote] ++ s ++ [dquote].

Definition deps_header : str := lit "[dependencies]" ++ [newline].

Definition profile_header : str := lit "[profile.release]" ++ [newline].

Definition libc_line : str :=
  lit "libc = " ++ quoted (lit "0.2.0") ++ [newline].

Definition serde_line : str :=
  lit "serde = { version = " ++ quoted (lit "1.0.0") ++ lit ", features = ["
      ++ quoted (lit "derive") ++ lit "] }" ++ [newline].

Definition comment_line : str := lit "# pinned" ++ [newline].

Definition array_line : str := lit "features = [" ++ [newline].

(** A lookup that fails for every name. *)
Definition no_answer : str -> option str := fun _ => None.

(** A lookup that answers the empty text. *)
Definition empty_answer : str -> option str := fun _ => Some [].

(** A lookup that knows two packages. *)
Definition two_answers : str -> option str :=
  fun name =>
    if str_eqb name (lit "serde") then Some (lit "1.0.200")
    else if str_eqb name (lit "libc") then Some (lit "0.2.150")
    else None.

(** A lookup that answers what [libc_line] and [serde_line] declare. *)
Definition same_answers : str -> option str :=
  fun name =>
    if str_eqb name (lit "serde") then Some (lit "1.0.0")
    else if str_eqb name (lit "libc") then Some (lit "0.2.0")
    else None.


(** The last line of a manifest, without its newline. *)
Definition libc_last_line : str := lit "libc = " ++ quoted (lit "0.2.0").

(** An entry followed by a comment. *)
Definition libc_commented : str :=
  lit "libc = " ++ quoted (lit "0.2.0") ++ lit " # pinned" ++ [newline].

(** The header of a nested table of the dependencies. *)
Definition nested_header : str := lit "[dependencies.serde]" ++ [newline].

(** An entry followed by a closing brace, and an entry with an empty
    version. *)
Definition libc_brace_line : str :=
  lit "libc = " ++ quoted (lit "0.2.0") ++ lit " }" ++ [newline].

Definition libc_empty_line : str := lit "libc = " ++ quoted [] ++ [newline].

(** A manifest with carriage returns before its newlines. *)
Definition crlf_content : str :=
  lit "[dependencies]" ++ [cr; newline] ++ lit "# none" ++ [cr; newline].

Definition sample_manifest : list str :=
  [deps_header; serde_line; comment_line; libc_line; profile_header;
   libc_line].

(** The content of a file that holds the lines of [sample_manifest]. *)
Definition sample_content : str := concat sample_manifest.

(** [crlf_content] with its line endings translated. *)
Definition crlf_translated : str :=
  lit "[dependencies]" ++ [newline] ++ lit "# none" ++ [newline].

(** *** Sample registries *)

Definition version_json (num : str) (yanked : bool) : pyval :=
  PDict [(lit "num", PStr num); (lit "yanked", PBool yanked)].

(** The body of the stable-policy example: a pre-release, a release, a
    yanked release. *)
Definition sample_body : pyval :=
  PDict [(lit "crate", PDict [(lit "max_version", PStr (lit "2.0.0-beta.1"))]);
         (lit "versions",
          PList [version_json (lit "2.0.0-beta.1") false;
                 version_json (lit "1.9.0") false;
                 version_json (lit "1.8.0") true])].

Definition registry_ok : str -> result response :=
  fun _ => Ok {| status_code := 200; json := Ok sample_body |}.

(** A registry that does not know the package. *)
Definition registry_404 : str -> result response :=
  fun _ => Ok {| status_code := 404; json := Ok (PDict []) |}.

(** A registry out of reach. *)
Definition registry_down : str -> result response :=
  fun _ => Raise (Raised (lit "ConnectTimeout") (lit "timed out")).

(** A registry that answers an empty object. *)
Definition registry_empty : str -> result response :=
  fun _ => Ok {| status_code := 200; json := Ok (PDict []) |}.

(** A body whose list goes on, after a release, with a value that is no
    version. *)
Definition body_with_junk : pyval :=
  PDict [(lit "versions",
          PList [version_json (lit "2.0.0-rc.1") false;
                 version_json (lit "1.9.0") false;
                 PNone])].

Definition registry_junk : str -> result response :=
  fun _ => Ok {| status_code := 200; json := Ok body_with_junk |}.

(** A body with a version that has no [num], ahead of a release. *)
Definition body_without_num : pyval :=
  PDict [(lit "versions",
          PList [version_json (lit "2.0.0-rc.1") false;
                 PDict [(lit "yanked", PBool false)];
                 version_json (lit "1.9.0") false])].

Definition registry_without_num : str -> result response :=
  fun _ => Ok {| status_code := 200; json := Ok body_without_num |}.

(** A rendering of exceptions. *)
Definition sample_exn_str (e : exn) : str :=
  match e with
  | Raised _ msg => msg
  | KeyError key => lit "'" ++ key ++ lit "'"
  | TypeError _ => lit "unsupported operand"
  | AttributeError _ attr => lit "no attribute " ++ attr
  end.

(* ================================================================== *)
(** ** Texts *)

Lemma str_eqb_eq (a b : str) : str_eqb a b = true <-> a = b.
Proof.
  revert b; induction a as [|x a IH]; intros [|y b]; simpl;
    try (split; [discriminate | discriminate]); try tauto.
  rewrite andb_true_iff, N.eqb_eq, IH.
  split; [intros [-> ->]; reflexivity | intros [= -> ->]; auto].
Qed.

Lemma str_eqb_refl (a : str) : str_eqb a a = true.
Proof. apply str_eqb_eq; reflexivity. Qed.

Lemma str_eqb_neq (a b : str) : str_eqb a b = false <-> a <> b.
Proof.
  rewrite <- str_eqb_eq. destruct (str_eqb a b); split; congruence.
Qed.

Lemma startswith_app (p s : str) : startswith (p ++ s) p = true.
Proof.
  induction p as [|c p IH]; simpl; [reflexivity|].
  rewrite N.eqb_refl; exact IH.
Qed.

Lemma startswith_iff (s p : str) :
  startswith s p = true <-> exists s', s = p ++ s'.
Proof.
  revert s; induction p as [|c p IH]; intros s; simpl.
  - split; [exists s; reflexivity | reflexivity].
  - destruct s as [|d s].
    + split; [discriminate | intros [s' [=]]].
    + rewrite andb_true_iff, N.eqb_eq, IH. split.
      * intros [-> [s' ->]]. exists s'; reflexivity.
      * intros [s' [= -> ->]]. split; [reflexivity | exists s'; reflexivity].
Qed.

Lemma str_contains_char (s : str) (c : char) :
  str_contains s [c] = existsb (fun x => (x =? c)%N) s.
Proof.
  induction s as [|d s IH]; simpl; [reflexivity|].
  rewrite IH, andb_true_r; reflexivity.
Qed.

(* ================================================================== *)
(** ** The matcher against the meaning of a pattern *)

Section Matcher.

Lemma greedy_sound (A : Type) (min k : nat) (rest : nat -> option A) r :
  greedy min k rest = Some r ->
  exists j, min <= j /\ j <= k /\ rest j = Some r.
Proof.
  induction k as [|k IH]; simpl.
  - destruct (0 <? min) eqn:E; [discriminate|].
    apply Nat.ltb_ge in E.
    destruct (rest 0) eqn:R; [|discriminate].
    intros [= <-]. exists 0; auto.
  - destruct (S k <? min) eqn:E; [discriminate|].
    apply Nat.ltb_ge in E.
    destruct (rest (S k)) eqn:R.
    + intros [= <-]. exists (S k); auto.
    + intros H. destruct (IH H) as (j & H1 & H2 & H3).
      exists j; auto.
Qed.

Lemma greedy_complete (A : Type) (min k j : nat) (rest : nat -> option A) :
  min <= j -> j <= k -> rest j <> None -> greedy min k rest <> None.
Proof.
  intros Hmin. induction k as [|k IH]; intros Hk Hr; simpl.
  - assert (j = 0) by lia; subst j.
    replace (0 <? min) with false by (symmetry; apply Nat.ltb_ge; lia).
    destruct (rest 0); congruence.
  - replace (S k <? min) with false by (symmetry; apply Nat.ltb_ge; lia).
    destruct (rest (S k)) eqn:R; [discriminate|].
    apply IH; [|exact Hr].
    destruct (Nat.eq_dec j (S k)) as [->|]; [congruence | lia].
Qed.

Lemma span_le_length cls (s : str) : span cls s <= length s.
Proof.
  induction s as [|c s IH]; simpl; [lia|].
  destruct (cls c); simpl; lia.
Qed.

Lemma span_firstn cls (s : str) j :
  j <= span cls s -> forallb cls (firstn j s) = true.
Proof.
  revert j; induction s as [|c s IH]; intros j; simpl.
  - intros H; assert (j = 0) by lia; subst; reflexivity.
  - destruct (cls c) eqn:E; intros H.
    + destruct j as [|j]; simpl; [reflexivity|].
      rewrite E, IH by lia; reflexivity.
    + assert (j = 0) by lia; subst; reflexivity.
Qed.

Lemma span_app cls (w s : str) :
  forallb cls w = true -> length w <= span cls (w ++ s).
Proof.
  induction w as [|c w IH]; simpl; [lia|].
  intros H; apply andb_true_iff in H as [-> H].
  specialize (IH H); lia.
Qed.

Lemma skipn_length_app (w s : str) : skipn (length w) (w ++ s) = s.
Proof. induction w; simpl; auto. Qed.

Lemma firstn_length_app (w s : str) : firstn (length w) (w ++ s) = w.
Proof. induction w; simpl; f_equal; auto. Qed.

(** Whatever the matcher returns is a match. *)
Lemma exec_sound (re : pattern) :
  forall pos s gs, exec re pos s = Some gs -> matches re pos s gs.
Proof.
  induction re as [|n re IH]; intros pos s gs; simpl.
  - intros [= <-]; constructor.
  - destruct n as [|c|cls min|cls min].
    + destruct (Nat.eqb_spec pos 0) as [->|]; [|discriminate].
      intros H; constructor; auto.
    + destruct s as [|c' s]; [discriminate|].
      destruct (N.eqb_spec c' c) as [->|]; [|discriminate].
      intros H; constructor; auto.
    + intros H. apply greedy_sound in H as (j & H1 & H2 & H3).
      rewrite <- (firstn_skipn j s).
      assert (length (firstn j s) = j) as L
        by (apply firstn_length_le; pose proof (span_le_length cls s); lia).
      constructor; [apply span_firstn; exact H2 | lia |].
      rewrite L. apply IH; exact H3.
    + intros H. apply greedy_sound in H as (j & H1 & H2 & H3).
      destruct (exec re (pos + j) (skipn j s)) as [gs'|] eqn:E; [|discriminate].
      injection H3 as <-.
      assert (length (firstn j s) = j) as L
        by (apply firstn_length_le; pose proof (span_le_length cls s); lia).
      rewrite <- (firstn_skipn j s) at 1.
      constructor; [apply span_firstn; exact H2 | lia |].
      rewrite L. apply IH; exact E.
Qed.

(** Where there is a match the matcher finds one. *)
Lemma exec_complete (re : pattern) pos s gs :
  matches re pos s gs -> exec re pos s <> None.
Proof.
  induction 1 as [pos s|re s gs H IH|c re pos s gs H IH
                  |cls min re pos w s gs Hw Hmin H IH
                  |cls min re pos w s gs Hw Hmin H IH]; simpl.
  - discriminate.
  - exact IH.
  - rewrite N.eqb_refl; exact IH.
  - apply greedy_complete with (j := length w);
      [exact Hmin | apply span_app; exact Hw |].
    rewrite skipn_length_app; exact IH.
  - apply greedy_complete with (j := length w);
      [exact Hmin | apply span_app; exact Hw |].
    rewrite skipn_length_app.
    destruct (exec re (pos + length w) s); congruence.
Qed.

End Matcher.

(* ================================================================== *)
(** ** The two patterns of the scripts *)

Section Patterns.

Lemma matches_end_inv pos s gs : matches [] pos s gs -> gs = [].
Proof. inversion 1; reflexivity. Qed.

Lemma matches_bol_inv re pos s gs :
  matches (Bol :: re) pos s gs -> pos = 0 /\ matches re 0 s gs.
Proof. inversion 1; subst; auto. Qed.

Lemma matches_lit_inv c re pos s gs :
  matches (Lit c :: re) pos s gs ->
  exists s', s = c :: s' /\ matches re (S pos) s' gs.
Proof. inversion 1; subst; eauto. Qed.

Lemma matches_many_inv cls min re pos s gs :
  matches (Many cls min :: re) pos s gs ->
  exists w s', s = w ++ s' /\ forallb cls w = true /\ min <= length w /\
               matches re (pos + length w) s' gs.
Proof. inversion 1; subst; eauto 8. Qed.

Lemma matches_group_inv cls min re pos s gs :
  matches (Group cls min :: re) pos s gs ->
  exists w s' gs', s = w ++ s' /\ gs = w :: gs' /\ forallb cls w = true /\
                   min <= length w /\ matches re (pos + length w) s' gs'.
Proof. inversion 1; subst; eauto 10. Qed.

Lemma length_pos_nonempty (w : str) : 1 <= length w -> w <> [].
Proof. destruct w; simpl; [lia | discriminate]. Qed.

Lemma nonempty_length_pos (w : str) : w <> [] -> 1 <= length w.
Proof. destruct w; simpl; [congruence | lia]. Qed.

Ltac inv_match H :=
  match type of H with
  | matches [] _ _ _ => apply matches_end_inv in H
  | matches (Bol :: _) _ _ _ => apply matches_bol_inv in H as [_ H]
  | matches (Lit _ :: _) _ _ _ =>
      let s := fresh "s" in
      let E := fresh "E" in
      apply matches_lit_inv in H as (s & E & H)
  | matches (Many _ _ :: _) _ _ _ =>
      let w := fresh "ws" in
      let s := fresh "s" in
      let E := fresh "E" in
      let C := fresh "C" in
      apply matches_many_inv in H as (w & s & E & C & _ & H)
  | matches (Group _ _ :: _) _ _ _ =>
      let w := fresh "w" in
      let s := fresh "s" in
      let gs := fresh "gs" in
      let E := fresh "E" in
      let G := fresh "G" in
      let C := fresh "C" in
      let L := fresh "L" in
      apply matches_group_inv in H as (w & s & gs & E & G & C & L & H)
  end.

Lemma str_re_shape v t gs :
  matches (str_re v) 0 t gs ->
  exists name V, gs = [name; V] /\ bare_string t name V.
Proof.
  intros H.
  assert (matches UpdateDeps.str_re 0 t gs) as H' by (destruct v; exact H).
  clear H; unfold UpdateDeps.str_re in H'.
  repeat inv_match H'. subst.
  do 2 eexists. split; [reflexivity|].
  do 3 eexists. split; [simpl; reflexivity|].
  repeat split; auto using length_pos_nonempty.
Qed.

Lemma shape_str_re v t name V :
  bare_string t name V -> matches (str_re v) 0 t [name; V].
Proof.
  intros (ws1 & ws2 & rest & -> & Hn & Cn & C1 & C2 & HV & CV).
  assert (matches UpdateDeps.str_re 0
            (name ++ ws1 ++ [ch "="] ++ ws2 ++ [dquote] ++ V ++ [dquote] ++ rest)
            [name; V]) as H.
  { unfold UpdateDeps.str_re.
    apply m_bol, m_group; auto using nonempty_length_pos.
    apply m_many; [exact C1 | lia |]. simpl. apply m_lit.
    apply m_many; [exact C2 | lia |]. simpl. apply m_lit.
    apply m_group; auto using nonempty_length_pos.
    simpl. apply m_lit. constructor. }
  destruct v; exact H.
Qed.

Lemma inline_re_shape v t gs :
  matches (inline_re v) 0 t gs ->
  exists name V trailing, gs = [name; V; trailing] /\ inline_table t name V trailing.
Proof.
  intros H.
  assert (matches UpdateDeps.inline_re 0 t gs) as H' by (destruct v; exact H).
  clear H; unfold UpdateDeps.inline_re in H'. simpl in H'.
  repeat inv_match H'. subst.
  do 3 eexists. split; [reflexivity|].
  do 6 eexists. split; [simpl; reflexivity|].
  repeat split; auto using length_pos_nonempty.
Qed.

End Patterns.

(* ================================================================== *)
(** ** The simple-string pattern cuts a text in one way only *)

Ltac class_facts :=
  unfold isspace, name_char, not_dquote, dot, dquote, newline, ch in *;
  simpl in *;
  repeat match goal with
  | H : _ = true |- _ =>
      first [ apply orb_true_iff in H | apply andb_true_iff in H
            | apply N.leb_le in H | apply N.eqb_eq in H
            | apply negb_true_iff in H ]
  | H : _ = false |- _ =>
      first [ apply N.eqb_neq in H | apply N.leb_gt in H ]
  | H : _ /\ _ |- _ => destruct H
  | H : _ \/ _ |- _ => destruct H
  end;
  try lia.

Section Unique.

Lemma run_unique cls (a a' x x' : str) :
  forallb cls a = true -> forallb cls a' = true ->
  stops cls x -> stops cls x' ->
  a ++ x = a' ++ x' -> a = a' /\ x = x'.
Proof.
  revert a'; induction a as [|c a IH]; intros [|c' a'] Ha Ha' Hx Hx' E;
    simpl in *.
  - auto.
  - subst x. simpl in Hx. apply andb_true_iff in Ha' as [? _]. congruence.
  - subst x'. simpl in Hx'. apply andb_true_iff in Ha as [? _]. congruence.
  - injection E as -> E.
    apply andb_true_iff in Ha as [_ Ha]. apply andb_true_iff in Ha' as [_ Ha'].
    destruct (IH a' Ha Ha' Hx Hx' E) as [-> ->]. auto.
Qed.

Lemma space_not_name c : isspace c = true -> name_char c = false.
Proof.
  intros H. destruct (name_char c) eqn:E; [exfalso|reflexivity].
  class_facts.
Qed.

Lemma name_not_space c : name_char c = true -> isspace c = false.
Proof.
  intros H. destruct (isspace c) eqn:E; [|reflexivity].
  apply space_not_name in E; congruence.
Qed.

Lemma stops_name_tail (ws x : str) :
  forallb isspace ws = true -> stops name_char (ws ++ ch "=" :: x).
Proof.
  destruct ws as [|c ws]; simpl; [reflexivity|].
  intros H; apply andb_true_iff in H as [H _]. apply space_not_name; exact H.
Qed.

Lemma bare_string_unique t name V name' V' :
  bare_string t name V -> bare_string t name' V' -> name = name' /\ V = V'.
Proof.
  intros (ws1 & ws2 & rest & -> & _ & Cn & C1 & C2 & _ & CV)
         (ws1' & ws2' & rest' & E & _ & Cn' & C1' & C2' & _ & CV').
  simpl in E.
  apply run_unique with (cls := name_char) in E as [<- E];
    auto using stops_name_tail.
  apply run_unique with (cls := isspace) in E as [<- E];
    auto; try reflexivity.
  injection E as E.
  apply run_unique with (cls := isspace) in E as [<- E];
    auto; try reflexivity.
  injection E as E.
  apply run_unique with (cls := not_dquote) in E as [<- E];
    auto; reflexivity.
Qed.

(** [re.match] with the simple-string pattern succeeds exactly on the
    texts of the shape [bare_string], and its groups are the name and the
    version of the shape. *)
Lemma str_re_match_iff v t name V :
  re_match (str_re v) t = Some [name; V] <-> bare_string t name V.
Proof.
  unfold re_match. split.
  - intros H. apply exec_sound, str_re_shape in H as (n & V0 & [= <- <-] & H).
    exact H.
  - intros H. pose proof (shape_str_re v H) as M.
    apply exec_complete in M.
    destruct (exec (str_re v) 0 t) as [gs|] eqn:E; [|congruence].
    apply exec_sound, str_re_shape in E as (n & V0 & -> & H').
    destruct (bare_string_unique H H') as [-> ->]. reflexivity.
Qed.

Lemma str_re_match_some v t m :
  re_match (str_re v) t = Some m ->
  exists name V, m = [name; V] /\ bare_string t name V.
Proof. intros H; apply exec_sound, str_re_shape in H; exact H. Qed.

Lemma str_re_match_none v t :
  re_match (str_re v) t = None <-> ~ exists name V, bare_string t name V.
Proof.
  split.
  - intros H (name & V & B). apply str_re_match_iff with (v := v) in B.
    congruence.
  - intros H. destruct (re_match (str_re v) t) as [m|] eqn:E; [|reflexivity].
    exfalso; apply H. apply str_re_match_some in E as (name & V & _ & B).
    eauto.
Qed.

Lemma inline_re_match_some v t m :
  re_match (inline_re v) t = Some m ->
  exists name V trailing,
    m = [name; V; trailing] /\ inline_table t name V trailing.
Proof. intros H; apply exec_sound, inline_re_shape in H; exact H. Qed.

(** A text that starts with a character outside [a-z0-9-_], or is empty,
    matches neither pattern. *)
Lemma no_name_no_match v t :
  stops name_char t ->
  re_match (inline_re v) t = None /\ re_match (str_re v) t = None.
Proof.
  intros S. split.
  - destruct (re_match (inline_re v) t) as [m|] eqn:E; [|reflexivity].
    apply inline_re_match_some in E
      as (name & V & tr & _ & ws1 & ws2 & ws3 & ws4 & ws5 & rest & -> & Hn & Cn & _).
    destruct name as [|c name]; [congruence|].
    simpl in S, Cn. apply andb_true_iff in Cn as [? _]. congruence.
  - destruct (re_match (str_re v) t) as [m|] eqn:E; [|reflexivity].
    apply str_re_match_some in E
      as (name & V & _ & ws1 & ws2 & rest & -> & Hn & Cn & _).
    destruct name as [|c name]; [congruence|].
    simpl in S, Cn. apply andb_true_iff in Cn as [? _]. congruence.
Qed.

Lemma classify_nonempty v t e :
  classify v t = Some e -> entry_name e <> [] /\ entry_version e <> [].
Proof.
  unfold classify.
  destruct (re_match (inline_re v) t) as [m|] eqn:E.
  - apply inline_re_match_some in E as (n & V0 & tr & -> & I).
    intros [= <-]. simpl.
    destruct I as (? & ? & ? & ? & ? & ? & _ & Hn & _ & _ & _ & _ & _ & _ & HV & _).
    auto.
  - destruct (re_match (str_re v) t) as [m|] eqn:E'; [|discriminate].
    apply str_re_match_some in E' as (n & V0 & -> & B).
    intros [= <-]. simpl.
    destruct B as (? & ? & ? & _ & Hn & _ & _ & _ & HV & _). auto.
Qed.

Lemma classify_starts_with_name v t e :
  classify v t = Some e -> exists c t', t = c :: t' /\ name_char c = true.
Proof.
  intros H. destruct t as [|c t'].
  - destruct (@no_name_no_match v []) as [A B]; [exact I|].
    unfold classify in H. rewrite A, B in H. discriminate.
  - exists c, t'. split; [reflexivity|].
    destruct (name_char c) eqn:E; [reflexivity|].
    destruct (@no_name_no_match v (c :: t')) as [A B]; [exact E|].
    unfold classify in H. rewrite A, B in H. discriminate.
Qed.

End Unique.

(* ================================================================== *)
(** ** One turn of the loop *)

Section Turn.

Variable v : variant.
Variable r : str -> option str.

Lemma loop_body_latest : loop_body v = UpdateDeps.loop_body.
Proof. destruct v; reflexivity. Qed.

Lemma inline_re_latest : inline_re v = UpdateDeps.inline_re.
Proof. destruct v; reflexivity. Qed.

Lemma str_re_latest : str_re v = UpdateDeps.str_re.
Proof. destruct v; reflexivity. Qed.

Lemma run_fold st lines : run v r st lines = fold_left (loop_body v r) lines st.
Proof. destruct v; reflexivity. Qed.

Lemma process_file_run lines :
  process_file v r lines =
  (new_lines (run v r init lines), trace (run v r init lines)).
Proof. destruct v; reflexivity. Qed.

(** A bracketed line sets the flag and is passed on. *)
Lemma loop_body_header st line :
  is_header (strip line) = true ->
  loop_body v r st line =
  {| in_deps := existsb (startswith (strip line)) UpdateDeps.dep_sections;
     new_lines := new_lines st ++ [line];
     trace := trace st |}.
Proof.
  unfold is_header. intros H. rewrite loop_body_latest.
  unfold UpdateDeps.loop_body. rewrite H. reflexivity.
Qed.

(** Outside a dependency section, and on comments and blank lines, the
    line is passed on. *)
Lemma loop_body_skipped st line :
  is_header (strip line) = false ->
  is_skipped (in_deps st) (strip line) = true ->
  loop_body v r st line = append_line st line.
Proof.
  unfold is_header, is_skipped. intros H K. rewrite loop_body_latest.
  unfold UpdateDeps.loop_body. rewrite H, K. reflexivity.
Qed.

(** A line that matches the inline-table pattern. *)
Lemma loop_body_inline st line m :
  is_header (strip line) = false ->
  is_skipped (in_deps st) (strip line) = false ->
  re_match (inline_re v) (strip line) = Some m ->
  loop_body v r st line =
  let name := group m 1 in
  let current_ver := group m 2 in
  let latest := r name in
  if truthy latest && differs latest current_ver then
    append_line
      (emit (emit st (Lookup name))
         (Print (lit "Updating " ++ name ++ lit ": " ++ current_ver
                   ++ lit " -> " ++ format latest)))
      (name ++ lit " = { version = " ++ [dquote] ++ format latest
            ++ [dquote] ++ group m 3 ++ lit "}" ++ [newline])
  else append_line (emit st (Lookup name)) line.
Proof.
  unfold is_header, is_skipped. intros H K M.
  rewrite loop_body_latest. rewrite inline_re_latest in M.
  unfold UpdateDeps.loop_body. rewrite H, K, M. reflexivity.
Qed.

(** A line that matches the simple-string pattern only. *)
Lemma loop_body_str st line m :
  is_header (strip line) = false ->
  is_skipped (in_deps st) (strip line) = false ->
  re_match (inline_re v) (strip line) = None ->
  re_match (str_re v) (strip line) = Some m ->
  loop_body v r st line =
  let name := group m 1 in
  let current_ver := group m 2 in
  let latest := r name in
  if truthy latest && differs latest current_ver then
    append_line
      (emit (emit st (Lookup name))
         (Print (lit "Updating " ++ name ++ lit ": " ++ current_ver
                   ++ lit " -> " ++ format latest)))
      (name ++ lit " = " ++ [dquote] ++ format latest ++ [dquote]
            ++ [newline])
  else append_line (emit st (Lookup name)) line.
Proof.
  unfold is_header, is_skipped. intros H K M M'.
  rewrite loop_body_latest. rewrite inline_re_latest in M.
  rewrite str_re_latest in M'.
  unfold UpdateDeps.loop_body. rewrite H, K, M, M'. reflexivity.
Qed.

(** A line that matches neither pattern. *)
Lemma loop_body_unrecognized st line :
  is_header (strip line) = false ->
  re_match (inline_re v) (strip line) = None ->
  re_match (str_re v) (strip line) = None ->
  loop_body v r st line = append_line st line.
Proof.
  unfold is_header. intros H M M'.
  rewrite loop_body_latest. rewrite inline_re_latest in M.
  rewrite str_re_latest in M'.
  unfold UpdateDeps.loop_body. rewrite H, M, M'.
  destruct (negb (in_deps st) || startswith (strip line) (lit "#")
            || is_empty (strip line)); reflexivity.
Qed.

(** The five cases of a turn. *)
Lemma loop_body_cases st line :
  (is_header (strip line) = true) \/
  (is_header (strip line) = false /\
   is_skipped (in_deps st) (strip line) = true) \/
  (is_header (strip line) = false /\
   is_skipped (in_deps st) (strip line) = false /\
   exists m, re_match (inline_re v) (strip line) = Some m) \/
  (is_header (strip line) = false /\
   is_skipped (in_deps st) (strip line) = false /\
   re_match (inline_re v) (strip line) = None /\
   exists m, re_match (str_re v) (strip line) = Some m) \/
  (is_header (strip line) = false /\
   re_match (inline_re v) (strip line) = None /\
   re_match (str_re v) (strip line) = None).
Proof.
  destruct (is_header (strip line)); [auto|].
  destruct (is_skipped (in_deps st) (strip line)); [auto|].
  destruct (re_match (inline_re v) (strip line)) as [m|]; [eauto 8|].
  destruct (re_match (str_re v) (strip line)) as [m|]; [eauto 10|].
  auto 10.
Qed.

Ltac frame_eq :=
  unfold append_line, emit, blank; cbn [in_deps new_lines trace app];
  rewrite <- ?app_assoc, ?app_nil_r; reflexivity.

(** A turn reads the flag of the state and nothing else of it. *)
Lemma loop_body_frame st line :
  loop_body v r st line =
  {| in_deps := in_deps (step v r (in_deps st) line);
     new_lines := new_lines st ++ new_lines (step v r (in_deps st) line);
     trace := trace st ++ trace (step v r (in_deps st) line) |}.
Proof.
  unfold step.
  destruct (loop_body_cases st line)
    as [H|[[H K]|[(H & K & m & M)|[(H & K & M & m & M')|(H & M & M')]]]].
  - rewrite !loop_body_header by exact H. frame_eq.
  - rewrite !loop_body_skipped by assumption. frame_eq.
  - rewrite !(@loop_body_inline _ _ m) by assumption.
    cbv zeta. destruct (truthy _ && differs _ _); frame_eq.
  - rewrite !(@loop_body_str _ _ m) by assumption.
    cbv zeta. destruct (truthy _ && differs _ _); frame_eq.
  - rewrite !loop_body_unrecognized by assumption. frame_eq.
Qed.

(** A turn appends one line. *)
Lemma step_one_line d line :
  new_lines (step v r d line) = [line_out v r d line].
Proof.
  unfold line_out, step.
  destruct (loop_body_cases (blank d) line)
    as [H|[[H K]|[(H & K & m & M)|[(H & K & M & m & M')|(H & M & M')]]]].
  - rewrite !loop_body_header by exact H. reflexivity.
  - rewrite !loop_body_skipped by assumption. reflexivity.
  - rewrite !(@loop_body_inline _ _ m) by assumption.
    cbv zeta. destruct (truthy _ && differs _ _); reflexivity.
  - rewrite !(@loop_body_str _ _ m) by assumption.
    cbv zeta. destruct (truthy _ && differs _ _); reflexivity.
  - rewrite !loop_body_unrecognized by assumption. reflexivity.
Qed.

End Turn.

(* ================================================================== *)
(** ** The whole loop *)

Section Whole.

Variable v : variant.
Variable r : str -> option str.

(** No lookup influences the flag. *)
Lemma step_in_deps d line :
  in_deps (step v r d line) = next_deps v d line.
Proof.
  unfold next_deps, step.
  destruct (loop_body_cases v (blank d) line)
    as [H|[[H K]|[(H & K & m & M)|[(H & K & M & m & M')|(H & M & M')]]]].
  - rewrite !loop_body_header by exact H. reflexivity.
  - rewrite !loop_body_skipped by assumption. reflexivity.
  - rewrite !(@loop_body_inline _ _ _ _ m) by assumption.
    cbv zeta. destruct (truthy (r _) && differs _ _); reflexivity.
  - rewrite !(@loop_body_str _ _ _ _ m) by assumption.
    cbv zeta. destruct (truthy (r _) && differs _ _); reflexivity.
  - rewrite !loop_body_unrecognized by assumption. reflexivity.
Qed.

Lemma run_cons st line lines :
  run v r st (line :: lines) = run v r (loop_body v r st line) lines.
Proof. rewrite !run_fold; reflexivity. Qed.

Lemma run_nil st : run v r st [] = st.
Proof. rewrite run_fold; reflexivity. Qed.

Lemma run_in_deps lines : forall st,
  in_deps (run v r st lines) = flag_after v (in_deps st) lines.
Proof.
  induction lines as [|line lines IH]; intros st.
  - rewrite run_nil; reflexivity.
  - rewrite run_cons, IH, loop_body_frame. cbn [in_deps].
    rewrite step_in_deps. reflexivity.
Qed.

Lemma run_new_lines lines : forall st,
  new_lines (run v r st lines) =
  new_lines st ++ outputs v r (in_deps st) lines.
Proof.
  induction lines as [|line lines IH]; intros st.
  - rewrite run_nil; simpl; rewrite app_nil_r; reflexivity.
  - rewrite run_cons, IH, loop_body_frame. cbn [in_deps new_lines].
    rewrite step_in_deps, step_one_line, <- app_assoc. reflexivity.
Qed.

Lemma run_trace lines : forall st,
  trace (run v r st lines) = trace st ++ events v r (in_deps st) lines.
Proof.
  induction lines as [|line lines IH]; intros st.
  - rewrite run_nil; simpl; rewrite app_nil_r; reflexivity.
  - rewrite run_cons, IH, loop_body_frame. cbn [in_deps trace].
    rewrite step_in_deps, <- app_assoc. reflexivity.
Qed.


Lemma outputs_nth lines : forall d i line,
  nth_error lines i = Some line ->
  nth_error (outputs v r d lines) i =
  Some (line_out v r (flag_after v d (firstn i lines)) line).
Proof.
  induction lines as [|l lines IH]; intros d [|i] line; simpl;
    try discriminate.
  - intros [= ->]. reflexivity.
  - intros H. apply IH; exact H.
Qed.

Lemma process_file_outputs lines :
  process_file v r lines = (outputs v r false lines, events v r false lines).
Proof.
  rewrite process_file_run, run_new_lines, run_trace. reflexivity.
Qed.

Lemma state_at_in_deps lines i :
  in_deps (state_at v r lines i) = flag_after v false (firstn i lines).
Proof. unfold state_at. rewrite run_in_deps. reflexivity. Qed.

(** The line written at an index is the line a turn writes for the line
    read at this index, with the flag as the lines before it left it. *)
Lemma process_file_nth lines i line :
  nth_error lines i = Some line ->
  nth_error (fst (process_file v r lines)) i =
  Some (line_out v r (in_deps (state_at v r lines i)) line).
Proof.
  intros H. rewrite process_file_outputs, state_at_in_deps. simpl.
  apply outputs_nth; exact H.
Qed.

End Whole.

(* ================================================================== *)
(** ** Entries *)

Section Entries.

Variable v : variant.
Variable r : str -> option str.

Lemma name_first_not_header c t :
  name_char c = true -> is_header (c :: t) = false.
Proof.
  intros H. unfold is_header. apply andb_false_iff; left.
  unfold lit; simpl. rewrite andb_true_r.
  destruct (c =? 91)%N eqn:E; [exfalso|reflexivity].
  class_facts.
Qed.

Lemma name_first_not_skipped c t :
  name_char c = true -> is_skipped true (c :: t) = false.
Proof.
  intros H. unfold is_skipped, lit; simpl. rewrite andb_true_r, orb_false_r.
  destruct (c =? 35)%N eqn:E; [exfalso|reflexivity].
  class_facts.
Qed.

(** A turn on a line that declares an entry, in a dependency section. *)
Lemma loop_body_entry st line e :
  in_deps st = true ->
  classify v (strip line) = Some e ->
  loop_body v r st line =
  let name := entry_name e in
  let latest := r name in
  if truthy latest && differs latest (entry_version e) then
    append_line
      (emit (emit st (Lookup name))
         (Print (updating name (entry_version e) (format latest))))
      (rebuilt e (format latest))
  else append_line (emit st (Lookup name)) line.
Proof.
  intros D C.
  destruct (@classify_starts_with_name v _ e C) as (c & t' & E & N).
  assert (is_header (strip line) = false) as H
    by (rewrite E; apply name_first_not_header; exact N).
  assert (is_skipped (in_deps st) (strip line) = false) as K
    by (rewrite E, D; apply name_first_not_skipped; exact N).
  unfold classify in C.
  destruct (re_match (inline_re v) (strip line)) as [m|] eqn:M.
  - injection C as <-. rewrite (@loop_body_inline v r st line m H K M). reflexivity.
  - destruct (re_match (str_re v) (strip line)) as [m|] eqn:M';
      [|discriminate].
    injection C as <-. rewrite (@loop_body_str v r st line m H K M M'). reflexivity.
Qed.

(** A turn on a line that declares no entry. *)
Lemma loop_body_no_entry st line :
  classify v (strip line) = None ->
  loop_body v r st line =
  if is_header (strip line) then
    {| in_deps := existsb (startswith (strip line)) UpdateDeps.dep_sections;
       new_lines := new_lines st ++ [line];
       trace := trace st |}
  else append_line st line.
Proof.
  intros C. unfold classify in C.
  destruct (re_match (inline_re v) (strip line)) as [m|] eqn:M;
    [discriminate|].
  destruct (re_match (str_re v) (strip line)) as [m|] eqn:M';
    [discriminate|].
  destruct (is_header (strip line)) eqn:H.
  - apply loop_body_header; exact H.
  - apply loop_body_unrecognized; assumption.
Qed.

(** Outside a dependency section the line is passed on, whatever it is. *)
Lemma loop_body_outside st line :
  in_deps st = false ->
  new_lines (loop_body v r st line) = new_lines st ++ [line] /\
  trace (loop_body v r st line) = trace st.
Proof.
  intros D. destruct (is_header (strip line)) eqn:H.
  - rewrite loop_body_header by exact H. auto.
  - rewrite loop_body_skipped; auto.
    unfold is_skipped. rewrite D. reflexivity.
Qed.

Lemma line_out_entry d line e :
  d = true ->
  classify v (strip line) = Some e ->
  line_out v r d line =
  if truthy (r (entry_name e)) && differs (r (entry_name e)) (entry_version e)
  then rebuilt e (format (r (entry_name e)))
  else line.
Proof.
  intros -> C. unfold line_out, step.
  rewrite (@loop_body_entry (blank true) line e eq_refl C). cbv zeta.
  destruct (truthy _ && differs _ _); reflexivity.
Qed.

Lemma line_out_no_entry d line :
  classify v (strip line) = None -> line_out v r d line = line.
Proof.
  intros C. unfold line_out, step. rewrite (@loop_body_no_entry _ _ C).
  destruct (is_header (strip line)); reflexivity.
Qed.

Lemma line_out_outside line :
  line_out v r false line = line.
Proof.
  unfold line_out, step.
  destruct (@loop_body_outside (blank false) line eq_refl) as [-> _].
  reflexivity.
Qed.

Lemma step_trace_entry line e :
  classify v (strip line) = Some e ->
  trace (step v r true line) =
  Lookup (entry_name e) ::
  if truthy (r (entry_name e)) && differs (r (entry_name e)) (entry_version e)
  then [Print (updating (entry_name e) (entry_version e)
                 (format (r (entry_name e))))]
  else [].
Proof.
  intros C. unfold step.
  rewrite (@loop_body_entry (blank true) line e eq_refl C). cbv zeta.
  destruct (truthy _ && differs _ _); reflexivity.
Qed.

Lemma step_trace_no_entry d line :
  classify v (strip line) = None -> trace (step v r d line) = [].
Proof.
  intros C. unfold step. rewrite (@loop_body_no_entry _ _ C).
  destruct (is_header (strip line)); reflexivity.
Qed.

Lemma step_trace_outside line : trace (step v r false line) = [].
Proof.
  unfold step.
  destruct (@loop_body_outside (blank false) line eq_refl) as [_ ->].
  reflexivity.
Qed.

Lemma truthy_differs_false (latest : option str) (V : str) :
  latest = None \/ latest = Some [] \/ latest = Some V ->
  truthy latest && differs latest V = false.
Proof.
  intros [-> | [-> | ->]]; [reflexivity | reflexivity |].
  simpl. rewrite str_eqb_refl. apply andb_false_r.
Qed.

Lemma truthy_differs_true (latest V : str) :
  latest <> [] -> latest <> V ->
  truthy (Some latest) && differs (Some latest) V = true.
Proof.
  intros H1 H2. apply andb_true_iff; split.
  - destruct latest; [congruence | reflexivity].
  - unfold differs. apply negb_true_iff, str_eqb_neq. exact H2.
Qed.

Lemma printed_app (a b : list event) : printed (a ++ b) = printed a ++ printed b.
Proof.
  induction a as [|[n|t] a IH]; simpl; [reflexivity | exact IH |].
  rewrite IH; reflexivity.
Qed.

Lemma looked_up_app (a b : list event) :
  looked_up (a ++ b) = looked_up a ++ looked_up b.
Proof.
  induction a as [|[n|t] a IH]; simpl; [reflexivity | | exact IH].
  rewrite IH; reflexivity.
Qed.

End Entries.

(* ================================================================== *)
(** ** The section tracker *)

Lemma existsb_dep_sections (t : str) :
  existsb (startswith t) UpdateDeps.dep_sections = true <->
  startswith t (lit "[dependencies]") = true \/
  startswith t (lit "[dev-dependencies]") = true \/
  startswith t (lit "[build-dependencies]") = true.
Proof.
  unfold UpdateDeps.dep_sections. cbn [existsb].
  rewrite !orb_true_iff. intuition discriminate.
Qed.

Lemma loop_body_keeps_flag v r st line :
  is_header (strip line) = false ->
  in_deps (loop_body v r st line) = in_deps st.
Proof.
  intros H.
  destruct (loop_body_cases v st line)
    as [H'|[[_ K]|[(_ & K & m & M)|[(_ & K & M & m & M')|(_ & M & M')]]]].
  - congruence.
  - rewrite loop_body_skipped by assumption. reflexivity.
  - rewrite (@loop_body_inline v r st line m) by assumption.
    cbv zeta. destruct (truthy _ && differs _ _); reflexivity.
  - rewrite (@loop_body_str v r st line m) by assumption.
    cbv zeta. destruct (truthy _ && differs _ _); reflexivity.
  - rewrite loop_body_unrecognized by assumption. reflexivity.
Qed.

(** C4. In both scripts, for every line: when its trimmed text starts
    with an opening bracket and ends with a closing bracket, the flag
    becomes true exactly when the trimmed text starts with one of
    [[dependencies]], [[dev-dependencies]], [[build-dependencies]] (and so
    false for any other bracketed line), the line is appended unchanged
    and no lookup or print takes place; a line whose trimmed text is not so
    bracketed leaves the flag as it was. *)
Theorem section_tracker (v : variant) (r : str -> option str)
  (st : loop_state) (line : str) :
  (startswith (strip line) (lit "[") = true ->
   endswith (strip line) (lit "]") = true ->
   (in_deps (loop_body v r st line) = true <->
      startswith (strip line) (lit "[dependencies]") = true \/
      startswith (strip line) (lit "[dev-dependencies]") = true \/
      startswith (strip line) (lit "[build-dependencies]") = true) /\
   new_lines (loop_body v r st line) = new_lines st ++ [line] /\
   trace (loop_body v r st line) = trace st) /\
  (startswith (strip line) (lit "[") && endswith (strip line) (lit "]") = false ->
   in_deps (loop_body v r st line) = in_deps st).
Proof.
  split.
  - intros H1 H2.
    rewrite loop_body_header by (unfold is_header; rewrite H1, H2; reflexivity).
    cbn [in_deps new_lines trace].
    split; [apply existsb_dep_sections | auto].
  - intros H. apply loop_body_keeps_flag. exact H.
Qed.

Lemma section_tracker_witness :
  in_deps (loop_body Latest two_answers init deps_header) = true /\
  in_deps (loop_body Stable two_answers (blank true) profile_header) = false /\
  in_deps (loop_body Latest two_answers (blank true) libc_line) = true.
Proof.
  split; [|split].
  - destruct (section_tracker Latest two_answers init deps_header) as [H _].
    destruct (H eq_refl eq_refl) as [[_ H1] _].
    apply H1. left. reflexivity.
  - destruct (section_tracker Stable two_answers (blank true) profile_header)
      as [H _].
    destruct (H eq_refl eq_refl) as [[H1 _] _].
    destruct (in_deps (loop_body Stable two_answers (blank true) profile_header));
      [|reflexivity].
    destruct (H1 eq_refl) as [E|[E|E]]; discriminate E.
  - destruct (section_tracker Latest two_answers (blank true) libc_line)
      as [_ H].
    exact (H eq_refl).
Defined.

(* ================================================================== *)
(** ** The line rewriter *)

Lemma rebuilt_one_newline (e : entry) (latest : str) :
  exists body c, rebuilt e latest = body ++ [c; newline] /\ c <> newline.
Proof.
  destruct e as [name V trailing|name V]; simpl.
  - exists (name ++ lit " = { version = " ++ [dquote] ++ latest ++ [dquote]
                 ++ trailing), (ch "}").
    split; [|discriminate].
    rewrite <- !app_assoc. reflexivity.
  - exists (name ++ lit " = " ++ [dquote] ++ latest), dquote.
    split; [|discriminate].
    rewrite <- !app_assoc. reflexivity.
Qed.

(** C5, amended. In both scripts, for every line of a dependency section
    that declares an entry: when the lookup gives absence, the empty
    text, or the declared version itself, the line is appended unchanged
    and nothing is printed; for every other answer the diagnostic
    [Updating {name}: {declared_version} -> {new_version}] is printed and
    the line appended is the rebuilt one, of the form of the entry with the
    trailing attributes as captured, which ends in one newline after a
    character that is not a newline. *)
Theorem line_rewriter (v : variant) (r : str -> option str)
  (st : loop_state) (line : str) (e : entry) :
  in_deps st = true ->
  classify v (strip line) = Some e ->
  ((r (entry_name e) = None \/ r (entry_name e) = Some [] \/
    r (entry_name e) = Some (entry_version e)) ->
   new_lines (loop_body v r st line) = new_lines st ++ [line] /\
   printed (trace (loop_body v r st line)) = printed (trace st)) /\
  (forall new_version,
     r (entry_name e) = Some new_version ->
     new_version <> [] -> new_version <> entry_version e ->
     printed (trace (loop_body v r st line)) =
       printed (trace st) ++
       [lit "Updating " ++ entry_name e ++ lit ": " ++ entry_version e
            ++ lit " -> " ++ new_version] /\
     new_lines (loop_body v r st line) =
       new_lines st ++ [rebuilt e new_version] /\
     exists body c,
       rebuilt e new_version = body ++ [c; newline] /\ c <> newline).
Proof.
  intros D C. rewrite (@loop_body_entry v r st line e D C). cbv zeta.
  split.
  - intros H. rewrite (truthy_differs_false H).
    unfold append_line, emit; cbn [new_lines trace].
    rewrite printed_app. simpl. rewrite app_nil_r. auto.
  - intros latest H H1 H2. rewrite H, (truthy_differs_true H1 H2).
    unfold append_line, emit; cbn [new_lines trace format].
    rewrite !printed_app. simpl. rewrite app_nil_r.
    split; [reflexivity|]. split; [reflexivity|].
    apply rebuilt_one_newline.
Qed.

Lemma line_rewriter_witness :
  new_lines (loop_body Latest two_answers (blank true) serde_line) =
    [lit "serde = { version = " ++ quoted (lit "1.0.200")
         ++ lit ", features = [" ++ quoted (lit "derive") ++ lit "] }"
         ++ [newline]] /\
  printed (trace (loop_body Latest two_answers (blank true) serde_line)) =
    [lit "Updating serde: 1.0.0 -> 1.0.200"] /\
  new_lines (loop_body Stable same_answers (blank true) libc_line) =
    [libc_line].
Proof.
  split; [|split].
  - destruct (@line_rewriter Latest two_answers (blank true) serde_line
                (InlineTable (lit "serde") (lit "1.0.0")
                   (lit ", features = [" ++ quoted (lit "derive") ++ lit "] "))
                eq_refl eq_refl) as [_ H].
    destruct (H (lit "1.0.200") eq_refl) as (_ & H2 & _);
      [discriminate | discriminate |].
    exact H2.
  - destruct (@line_rewriter Latest two_answers (blank true) serde_line
                (InlineTable (lit "serde") (lit "1.0.0")
                   (lit ", features = [" ++ quoted (lit "derive") ++ lit "] "))
                eq_refl eq_refl) as [_ H].
    destruct (H (lit "1.0.200") eq_refl) as (H1 & _ & _);
      [discriminate | discriminate |].
    exact H1.
  - destruct (@line_rewriter Stable same_answers (blank true) libc_line
                (BareString (lit "libc") (lit "0.2.0"))
                eq_refl eq_refl) as [H _].
    destruct H as [H _]; [right; right; reflexivity|].
    exact H.
Defined.

(** C5 as stated fails: the answer of [empty_answer] for [libc] is
    neither absence nor the declared version [0.2.0], and yet the line is
    appended unchanged and nothing is printed. *)
Lemma line_rewriter_counterexample :
  classify Latest (strip libc_line)
    = Some (BareString (lit "libc") (lit "0.2.0")) /\
  empty_answer (lit "libc") <> None /\
  empty_answer (lit "libc") <> Some (lit "0.2.0") /\
  new_lines (loop_body Latest empty_answer (blank true) libc_line)
    = [libc_line] /\
  printed (trace (loop_body Latest empty_answer (blank true) libc_line)) = [].
Proof.
  repeat split; try discriminate; vm_compute; reflexivity.
Qed.

(** C10. In both scripts, for every line of a dependency section that
    declares an entry: when the lookup gives the empty text, which is not
    the declared version (a declared version is never empty), the line is
    appended unchanged and nothing is printed, as for absence; the lookup
    is the only event. *)
Theorem empty_answer_is_absence (v : variant) (r : str -> option str)
  (st : loop_state) (line : str) (e : entry) :
  in_deps st = true ->
  classify v (strip line) = Some e ->
  r (entry_name e) = Some [] ->
  [] <> entry_version e /\
  loop_body v r st line =
    loop_body v (fun _ => None) st line /\
  new_lines (loop_body v r st line) = new_lines st ++ [line] /\
  trace (loop_body v r st line) = trace st ++ [Lookup (entry_name e)].
Proof.
  intros D C H.
  split.
  - destruct (classify_nonempty _ _ C) as [_ HV]. congruence.
  - rewrite !(@loop_body_entry v _ st line e D C). cbv zeta.
    rewrite H. simpl. auto.
Qed.

Lemma empty_answer_is_absence_witness :
  new_lines (loop_body Latest empty_answer (blank true) serde_line)
    = [serde_line] /\
  trace (loop_body Latest empty_answer (blank true) serde_line)
    = [Lookup (lit "serde")].
Proof.
  destruct (@empty_answer_is_absence Latest empty_answer (blank true)
              serde_line
              (InlineTable (lit "serde") (lit "1.0.0")
                 (lit ", features = [" ++ quoted (lit "derive") ++ lit "] "))
              eq_refl eq_refl eq_refl) as (_ & _ & H1 & H2).
  split; [exact H1 | exact H2].
Defined.

(* ================================================================== *)
(** ** The entry matcher: the simple-string form *)

Lemma classify_bare v t name V :
  re_match (inline_re v) t = None ->
  bare_string t name V ->
  classify v t = Some (BareString name V).
Proof.
  intros M B. apply (str_re_match_iff v) in B.
  unfold classify. rewrite M, B. reflexivity.
Qed.

Lemma classify_not_bare v t :
  re_match (inline_re v) t = None ->
  (~ exists name V, bare_string t name V) ->
  classify v t = None.
Proof.
  intros M B. apply (str_re_match_none v) in B.
  unfold classify. rewrite M, B. reflexivity.
Qed.

(** C2, amended. In both scripts, for every line met in a dependency
    section whose trimmed text does not match the inline-table pattern:
    when the trimmed text starts with the shape [name = "V"] (a name of
    one or more of [a-z0-9-_], the equals sign with optional white space
    around it, and a quoted text of one or more characters), whatever
    follows the closing quote, the line is classified as a simple-string
    entry of this name and version and the name is looked up; when it does
    not, the line is unrecognized: it is appended unchanged and there is
    no lookup and no print. *)
Theorem bare_string_form (v : variant) (r : str -> option str)
  (st : loop_state) (line : str) :
  in_deps st = true ->
  re_match (inline_re v) (strip line) = None ->
  (forall name V,
     bare_string (strip line) name V ->
     classify v (strip line) = Some (BareString name V) /\
     exists after,
       trace (loop_body v r st line) = trace st ++ Lookup name :: after) /\
  ((~ exists name V, bare_string (strip line) name V) ->
   classify v (strip line) = None /\
   new_lines (loop_body v r st line) = new_lines st ++ [line] /\
   trace (loop_body v r st line) = trace st).
Proof.
  intros D M. split.
  - intros name V B.
    pose proof (classify_bare v M B) as C.
    split; [exact C|].
    rewrite (@loop_body_entry v r st line _ D C). cbv zeta.
    destruct (truthy _ && differs _ _);
      unfold append_line, emit; cbn [trace entry_name];
      rewrite <- ?app_assoc; eexists; reflexivity.
  - intros B.
    pose proof (classify_not_bare v M B) as C.
    split; [exact C|].
    rewrite (@loop_body_no_entry v r st line C).
    destruct (is_header (strip line)); auto.
Qed.

Lemma bare_string_form_witness :
  classify Latest (strip libc_line)
    = Some (BareString (lit "libc") (lit "0.2.0")) /\
  new_lines (loop_body Latest two_answers (blank true) array_line)
    = [array_line] /\
  trace (loop_body Latest two_answers (blank true) array_line) = [].
Proof.
  split.
  - destruct (@bare_string_form Latest two_answers (blank true) libc_line
                eq_refl eq_refl) as [H _].
    destruct (H (lit "libc") (lit "0.2.0")) as [C _]; [|exact C].
    apply (str_re_match_iff Latest). reflexivity.
  - destruct (@bare_string_form Latest two_answers (blank true) array_line
                eq_refl eq_refl) as [_ H].
    destruct H as (_ & H1 & H2); [|split; [exact H1 | exact H2]].
    apply (str_re_match_none Latest). reflexivity.
Defined.

(* ================================================================== *)
(** ** Lines left as they are *)

Lemma classify_stops v t : stops name_char t -> classify v t = None.
Proof.
  intros S. destruct (@no_name_no_match v t S) as [A B].
  unfold classify. rewrite A, B. reflexivity.
Qed.

Lemma classify_comment v t :
  startswith t (lit "#") = true -> classify v t = None.
Proof.
  intros H. apply classify_stops.
  apply startswith_iff in H as [t' ->]. reflexivity.
Qed.

(** C6. In both scripts, for every resolver and every line of the input:
    when the loop reaches the line outside a dependency section (the flag
    is false), or the line is a comment, is blank, or matches neither
    pattern, the line written at its index is the line read. *)
Theorem untouched_lines (v : variant) (r : str -> option str)
  (lines : list str) (i : nat) (line : str) :
  nth_error lines i = Some line ->
  (in_deps (state_at v r lines i) = false \/
   startswith (strip line) (lit "#") = true \/
   strip line = [] \/
   classify v (strip line) = None) ->
  nth_error (fst (process_file v r lines)) i = Some line.
Proof.
  intros H U. rewrite (process_file_nth v r lines i H). f_equal.
  destruct U as [U|[U|[U|U]]].
  - rewrite U. apply line_out_outside.
  - apply line_out_no_entry, classify_comment; exact U.
  - apply line_out_no_entry. rewrite U. apply classify_stops. exact I.
  - apply line_out_no_entry; exact U.
Qed.

(** The line shaped as a dependency that follows [[profile.release]] in
    [sample_manifest], at index 5, is written as read, and so is the
    comment at index 2. *)
Lemma untouched_lines_witness :
  nth_error (fst (process_file Latest two_answers sample_manifest)) 5
    = Some libc_line /\
  nth_error (fst (process_file Stable two_answers sample_manifest)) 2
    = Some comment_line.
Proof.
  split.
  - apply (@untouched_lines Latest two_answers sample_manifest 5 libc_line
             eq_refl).
    left. reflexivity.
  - apply (@untouched_lines Stable two_answers sample_manifest 2 comment_line
             eq_refl).
    right; left. reflexivity.
Defined.

(* ================================================================== *)
(** ** A lookup that answers the declared versions *)

Section OwnVersion.

Variable v : variant.
Variable r : str -> option str.

Lemma outputs_own lines : forall d,
  (forall i line e,
     nth_error lines i = Some line ->
     flag_after v d (firstn i lines) = true ->
     classify v (strip line) = Some e ->
     r (entry_name e) = Some (entry_version e)) ->
  outputs v r d lines = lines /\ printed (events v r d lines) = [].
Proof.
  induction lines as [|line lines IH]; intros d H; [auto|].
  destruct (IH (next_deps v d line)) as [IH1 IH2].
  { intros i l e Hn Hd Hc. exact (H (S i) l e Hn Hd Hc). }
  cbn [outputs events]. rewrite IH1, printed_app, IH2, app_nil_r.
  destruct d.
  - destruct (classify v (strip line)) as [e|] eqn:C.
    + pose proof (H 0 line e eq_refl eq_refl C) as A.
      rewrite (@line_out_entry v r true line e eq_refl C).
      rewrite (@step_trace_entry v r line e C).
      rewrite truthy_differs_false by auto. auto.
    + rewrite (line_out_no_entry v r true line C).
      rewrite (step_trace_no_entry v r true line C). auto.
  - rewrite line_out_outside, step_trace_outside. auto.
Qed.

End OwnVersion.

(** On the lines: with a lookup that answers, for every entry the loop
    reads in a dependency section, the version this entry declares, the
    lines written are the lines read and nothing is printed. *)
Lemma own_version_lines (v : variant) (r : str -> option str)
  (lines : list str) :
  (forall i line e,
     nth_error lines i = Some line ->
     in_deps (state_at v r lines i) = true ->
     classify v (strip line) = Some e ->
     r (entry_name e) = Some (entry_version e)) ->
  fst (process_file v r lines) = lines /\
  printed (snd (process_file v r lines)) = [].
Proof.
  intros H.
  destruct (@outputs_own v r lines false) as [H1 H2].
  { intros i line e Hn Hd Hc. apply (H i line e Hn); [|exact Hc].
    rewrite state_at_in_deps. exact Hd. }
  rewrite process_file_outputs. cbn [fst snd]. auto.
Qed.

(* ================================================================== *)
(** ** The two scripts rewrite alike *)

(** C8. With the lookup as a parameter, [process_file] of update_deps.py
    and [process_file] of update_deps_stable.py give, for every lookup and
    every list of lines, the same lines to write and the same trace of
    lookups and printed diagnostics. *)
Theorem variants_agree (r : str -> option str) (lines : list str) :
  UpdateDeps.process_file r lines = UpdateDepsStable.process_file r lines.
Proof. reflexivity. Qed.

(* ================================================================== *)
(** ** A failed lookup touches its own line only *)





(* ================================================================== *)
(** ** The version resolver *)

Section Resolver.

Variable requests_get : str -> result response.
Variable exn_str : exn -> str.
Variable name : str.

Lemma get_latest_version_raise v e :
  requests_get (lit "https://crates.io/api/v1/crates/" ++ name) = Raise e ->
  get_latest_version v requests_get exn_str name =
  (PNone, [error_fetching exn_str name e]).
Proof.
  intros H.
  destruct v; simpl;
    [unfold UpdateDeps.get_latest_version, UpdateDeps.try_block
    |unfold UpdateDepsStable.get_latest_version, UpdateDepsStable.try_block];
    rewrite H; reflexivity.
Qed.

Lemma get_latest_version_status v resp :
  requests_get (lit "https://crates.io/api/v1/crates/" ++ name) = Ok resp ->
  status_code resp <> 200%Z ->
  get_latest_version v requests_get exn_str name = (PNone, []).
Proof.
  intros H S. apply Z.eqb_neq in S.
  destruct v; simpl;
    [unfold UpdateDeps.get_latest_version, UpdateDeps.try_block
    |unfold UpdateDepsStable.get_latest_version, UpdateDepsStable.try_block];
    rewrite H; simpl; rewrite S; reflexivity.
Qed.

Lemma get_latest_version_200 v resp :
  requests_get (lit "https://crates.io/api/v1/crates/" ++ name) = Ok resp ->
  status_code resp = 200%Z ->
  get_latest_version v requests_get exn_str name =
  match data <- json resp ;; from_data v data with
  | Ok x => (x, [])
  | Raise e => (PNone, [error_fetching exn_str name e])
  end.
Proof.
  intros H S. apply Z.eqb_eq in S.
  destruct v; simpl;
    [unfold UpdateDeps.get_latest_version, UpdateDeps.try_block
    |unfold UpdateDepsStable.get_latest_version, UpdateDepsStable.try_block];
    rewrite H; simpl; rewrite S;
    destruct (json resp) as [data|e]; simpl; try reflexivity.
  - destruct (UpdateDeps.from_data data); reflexivity.
  - destruct (UpdateDepsStable.from_data data); reflexivity.
Qed.

End Resolver.

(** C1, amended. In both scripts, for every package name: when the
    request raises (a timeout, a network failure), when the body of a
    response of status 200 does not decode, and when what is read in the
    decoded body raises (a key that is missing, a value of another kind),
    the resolver prints [Error fetching {name}: {detail}] to the error
    stream, with the text of the exception for detail, and returns [None];
    for a response of a status other than 200 it returns [None] and prints
    nothing. *)
Theorem lookup_failure (v : variant) (requests_get : str -> result response)
  (exn_str : exn -> str) (name : str) :
  (forall e,
     requests_get (lit "https://crates.io/api/v1/crates/" ++ name) = Raise e ->
     get_latest_version v requests_get exn_str name =
     (PNone, [lit "Error fetching " ++ name ++ lit ": " ++ exn_str e])) /\
  (forall resp e,
     requests_get (lit "https://crates.io/api/v1/crates/" ++ name) = Ok resp ->
     status_code resp = 200%Z ->
     json resp = Raise e ->
     get_latest_version v requests_get exn_str name =
     (PNone, [lit "Error fetching " ++ name ++ lit ": " ++ exn_str e])) /\
  (forall resp data e,
     requests_get (lit "https://crates.io/api/v1/crates/" ++ name) = Ok resp ->
     status_code resp = 200%Z ->
     json resp = Ok data ->
     from_data v data = Raise e ->
     get_latest_version v requests_get exn_str name =
     (PNone, [lit "Error fetching " ++ name ++ lit ": " ++ exn_str e])) /\
  (forall resp,
     requests_get (lit "https://crates.io/api/v1/crates/" ++ name) = Ok resp ->
     status_code resp <> 200%Z ->
     get_latest_version v requests_get exn_str name = (PNone, [])).
Proof.
  repeat split.
  - intros e H. apply get_latest_version_raise; exact H.
  - intros resp e H S J.
    rewrite (@get_latest_version_200 requests_get exn_str name v resp H S), J. reflexivity.
  - intros resp data e H S J F.
    rewrite (@get_latest_version_200 requests_get exn_str name v resp H S), J. simpl. rewrite F.
    reflexivity.
  - intros resp H S. apply get_latest_version_status with (resp := resp);
      assumption.
Qed.

Lemma lookup_failure_witness :
  get_latest_version Latest registry_down sample_exn_str (lit "serde")
    = (PNone, [lit "Error fetching serde: timed out"]) /\
  get_latest_version Stable registry_empty sample_exn_str (lit "serde")
    = (PNone, [lit "Error fetching serde: 'crate'"]) /\
  get_latest_version Stable registry_404 sample_exn_str (lit "serde")
    = (PNone, []).
Proof.
  split; [|split].
  - destruct (lookup_failure Latest registry_down sample_exn_str (lit "serde"))
      as (H & _).
    exact (H _ eq_refl).
  - destruct (lookup_failure Stable registry_empty sample_exn_str (lit "serde"))
      as (_ & _ & H & _).
    exact (H _ (PDict []) (KeyError (lit "crate")) eq_refl eq_refl eq_refl
             eq_refl).
  - destruct (lookup_failure Stable registry_404 sample_exn_str (lit "serde"))
      as (_ & _ & _ & H).
    apply (H _ eq_refl). discriminate.
Defined.

(** C1 as stated fails: on a response of status 404 both scripts return
    [None] and print no line to the error stream. *)
Lemma lookup_failure_counterexample :
  get_latest_version Latest registry_404 sample_exn_str (lit "serde")
    = (PNone, []) /\
  get_latest_version Stable registry_404 sample_exn_str (lit "serde")
    = (PNone, []) /\
  ~ (exists line,
       In line (snd (get_latest_version Latest registry_404 sample_exn_str
                       (lit "serde")))).
Proof.
  split; [reflexivity|]. split; [reflexivity|].
  intros [line H]. exact H.
Qed.

(* ================================================================== *)
(** ** The stable policy *)

Lemma no_hyphen_contains (num : str) :
  negb (str_contains num (lit "-")) =
  forallb (fun c => negb (c =? ch "-")%N) num.
Proof.
  change (lit "-") with [ch "-"]. rewrite str_contains_char.
  induction num as [|c num IH]; cbn [existsb forallb]; [reflexivity|].
  rewrite negb_orb, IH. reflexivity.
Qed.

Lemma first_stable_typed (vs : list pyval) (nvs : list (str * bool)) :
  Forall2 is_version vs nvs ->
  UpdateDepsStable.first_stable vs =
  Ok (option_map (fun nv => PStr (fst nv)) (find qualifies nvs)).
Proof.
  induction 1 as [|x [num yanked] vs nvs [Hn Hy] _ IH]; [reflexivity|].
  cbn [UpdateDepsStable.first_stable find fst snd] in *.
  rewrite Hn, Hy. cbn [bind is_true contains].
  unfold qualifies; cbn [fst snd].
  rewrite <- no_hyphen_contains.
  destruct yanked; cbn [negb andb]; [exact IH|].
  destruct (negb (str_contains num (lit "-"))); [reflexivity | exact IH].
Qed.

(** C3. For every response of status 200 whose body decodes to an object
    with a list [versions] of objects that hold a text [num] and a boolean
    [yanked]: the stable resolver returns the [num] of the first version
    of the list that is not yanked and whose [num] holds no hyphen, and
    prints nothing; when no version of the list qualifies, the empty list
    included, it returns [crate.max_version]. *)
Theorem stable_selection (requests_get : str -> result response)
  (exn_str : exn -> str) (name : str) (resp : response) (data : pyval)
  (vs : list pyval) (nvs : list (str * bool)) :
  requests_get (lit "https://crates.io/api/v1/crates/" ++ name) = Ok resp ->
  status_code resp = 200%Z ->
  json resp = Ok data ->
  get data (lit "versions") (PList []) = Ok (PList vs) ->
  Forall2 is_version vs nvs ->
  match find qualifies nvs with
  | Some nv =>
      UpdateDepsStable.get_latest_version requests_get exn_str name
      = (PStr (fst nv), [])
  | None =>
      forall crate max_version,
        getitem data (lit "crate") = Ok crate ->
        getitem crate (lit "max_version") = Ok max_version ->
        UpdateDepsStable.get_latest_version requests_get exn_str name
        = (max_version, [])
  end.
Proof.
  intros H S J G T.
  pose proof (@get_latest_version_200 requests_get exn_str name Stable resp H S) as E.
  cbn [get_latest_version from_data] in E. rewrite J in E. cbn [bind] in E.
  unfold UpdateDepsStable.from_data in E.
  rewrite G in E. cbn [bind iter] in E.
  rewrite (first_stable_typed T) in E. cbn [bind] in E.
  destruct (find qualifies nvs) as [nv|]; cbn [option_map] in E.
  - exact E.
  - intros crate mv Hc Hm. rewrite Hc in E. cbn [bind] in E.
    rewrite Hm in E. exact E.
Qed.

(** The example of the stable policy: the pre-release is passed over and
    [1.9.0] is returned. *)
Lemma stable_selection_witness :
  UpdateDepsStable.get_latest_version registry_ok sample_exn_str (lit "tokio")
  = (PStr (lit "1.9.0"), []).
Proof.
  apply (@stable_selection registry_ok sample_exn_str (lit "tokio") _
           sample_body _
           [(lit "2.0.0-beta.1", false); (lit "1.9.0", false);
            (lit "1.8.0", true)]
           eq_refl eq_refl eq_refl eq_refl).
  repeat constructor.
Defined.

(* ================================================================== *)
(** ** Worked examples *)

(** [update_line] changes no line. *)
Lemma update_line_id (line : str) : UpdateDeps.update_line line = line.
Proof.
  unfold UpdateDeps.update_line.
  destruct (re_match UpdateDeps.update_line_re (strip line)); reflexivity.
Qed.

(** The run of [sample_manifest] under [two_answers]: both entries of the
    dependency section are rewritten, the comment and the line after
    [[profile.release]] are not. *)
Example sample_run :
  process_file Latest two_answers sample_manifest =
  ([deps_header;
    lit "serde = { version = " ++ quoted (lit "1.0.200")
        ++ lit ", features = [" ++ quoted (lit "derive") ++ lit "] }"
        ++ [newline];
    comment_line;
    lit "libc = " ++ quoted (lit "0.2.150") ++ [newline];
    profile_header;
    libc_line],
   [Lookup (lit "serde"); Print (lit "Updating serde: 1.0.0 -> 1.0.200");
    Lookup (lit "libc"); Print (lit "Updating libc: 0.2.0 -> 0.2.150")]).
Proof. vm_compute. reflexivity. Qed.

(** A last line without newline gains one when it is rewritten. *)
Example last_line_gains_newline :
  fst (process_file Stable two_answers [deps_header; libc_last_line]) =
  [deps_header; lit "libc = " ++ quoted (lit "0.2.150") ++ [newline]].
Proof. vm_compute. reflexivity. Qed.

(** The simple-string pattern is matched at the start of the trimmed
    line: what follows the closing quote is not part of the entry and is
    not written back when the line is rebuilt. *)
Example text_after_quote :
  classify Latest (strip libc_commented)
    = Some (BareString (lit "libc") (lit "0.2.0")) /\
  fst (process_file Latest two_answers [deps_header; libc_commented]) =
  [deps_header; lit "libc = " ++ quoted (lit "0.2.150") ++ [newline]].
Proof. split; vm_compute; reflexivity. Qed.

(** The header of a nested table of the dependencies does not start with
    the literal [[dependencies]], whose last character is the closing
    bracket: it clears the flag, and an entry below it is left as it is. *)
Example nested_header_clears_flag :
  startswith (strip nested_header) (lit "[dependencies]") = false /\
  in_deps (loop_body Latest no_answer (blank true) nested_header) = false /\
  process_file Latest two_answers [deps_header; nested_header; libc_line]
  = ([deps_header; nested_header; libc_line], []).
Proof. repeat split; vm_compute; reflexivity. Qed.

(** The latest policy returns [crate.max_version], pre-release or not. *)
Example latest_policy_example :
  UpdateDeps.get_latest_version registry_ok sample_exn_str (lit "tokio")
  = (PStr (lit "2.0.0-beta.1"), []).
Proof. reflexivity. Qed.

(** Two failures of reading the decoded body: an object without [crate],
    and a body that is not an object. *)
Example missing_crate :
  UpdateDeps.get_latest_version registry_empty sample_exn_str (lit "serde")
  = (PNone, [lit "Error fetching serde: 'crate'"]).
Proof. reflexivity. Qed.

Example body_not_object :
  UpdateDepsStable.get_latest_version
    (fun _ => Ok {| status_code := 200; json := Ok (PList []) |})
    sample_exn_str (lit "serde")
  = (PNone, [lit "Error fetching serde: no attribute get"]).
Proof. reflexivity. Qed.

(* ================================================================== *)
(** ** The matcher on a text cut in runs *)

Section Runs.

Lemma span_run cls (w s : str) :
  forallb cls w = true -> stops cls s -> span cls (w ++ s) = length w.
Proof.
  induction w as [|c w IH]; simpl.
  - intros _ S. destruct s as [|c s]; [reflexivity|].
    simpl in S. simpl. rewrite S. reflexivity.
  - intros H S. apply andb_true_iff in H as [-> H].
    rewrite (IH H S). reflexivity.
Qed.

Lemma greedy_first (A : Type) (min k : nat) (rest : nat -> option A) r :
  min <= k -> rest k = Some r -> greedy min k rest = Some r.
Proof.
  intros H R. destruct k as [|k]; simpl.
  - replace (0 <? min) with false by (symmetry; apply Nat.ltb_ge; lia).
    rewrite R. reflexivity.
  - replace (S k <? min) with false by (symmetry; apply Nat.ltb_ge; lia).
    rewrite R. reflexivity.
Qed.

Lemma greedy_next (A : Type) (min k : nat) (rest : nat -> option A) :
  min <= S k -> rest (S k) = None ->
  greedy min (S k) rest = greedy min k rest.
Proof.
  intros H R. simpl.
  replace (S k <? min) with false by (symmetry; apply Nat.ltb_ge; lia).
  rewrite R. reflexivity.
Qed.

(** A group whose class ends where the text says: the run is the group. *)
Lemma exec_group_run cls min re pos (w s : str) gs :
  forallb cls w = true -> stops cls s -> min <= length w ->
  exec re (pos + length w) s = Some gs ->
  exec (Group cls min :: re) pos (w ++ s) = Some (w :: gs).
Proof.
  intros C S L E. simpl. rewrite (span_run cls w s C S).
  apply greedy_first; [exact L|].
  rewrite skipn_length_app, firstn_length_app, E. reflexivity.
Qed.

Lemma exec_many_run cls min re pos (w s : str) gs :
  forallb cls w = true -> stops cls s -> min <= length w ->
  exec re (pos + length w) s = Some gs ->
  exec (Many cls min :: re) pos (w ++ s) = Some gs.
Proof.
  intros C S L E. simpl. rewrite (span_run cls w s C S).
  apply greedy_first; [exact L|].
  rewrite skipn_length_app. exact E.
Qed.

Lemma forallb_app_true (cls : char -> bool) (a b : str) :
  forallb cls a = true -> forallb cls b = true -> forallb cls (a ++ b) = true.
Proof. intros A B. rewrite forallb_app, A, B. reflexivity. Qed.

Lemma span_all cls (s : str) : forallb cls s = true -> span cls s = length s.
Proof.
  intros H. rewrite <- (app_nil_r s) at 1. apply span_run; [exact H | exact I].
Qed.

Lemma skipn_app_length (w s : str) : skipn (length w) (w ++ s) = s.
Proof. apply skipn_length_app. Qed.

(** The last group of the inline-table pattern on a text that ends with
    its closing brace. *)
Lemma exec_trailing_brace pos (trailing : str) :
  forallb dot trailing = true ->
  exec [Group dot 0; Lit (ch "}")] pos (trailing ++ [ch "}"]) = Some [trailing].
Proof.
  intros C. cbn [exec].
  rewrite span_all
    by (apply forallb_app_true; [exact C | reflexivity]).
  rewrite length_app, Nat.add_comm. cbn [length Nat.add].
  rewrite greedy_next; [|lia|].
  - apply greedy_first; [lia|].
    rewrite skipn_length_app, firstn_length_app. cbn.
    reflexivity.
  - replace (S (length trailing)) with (length (trailing ++ [ch "}"]))
      by (rewrite length_app; simpl; lia).
    rewrite skipn_all. reflexivity.
Qed.

End Runs.

(* ================================================================== *)
(** ** What [strip] leaves of a line *)

Section Strip.

Lemma lstrip_spaces (ws s : str) :
  forallb isspace ws = true -> lstrip (ws ++ s) = lstrip s.
Proof.
  induction ws as [|c ws IH]; simpl; [reflexivity|].
  intros H. apply andb_true_iff in H as [-> H]. exact (IH H).
Qed.

Lemma lstrip_stops (s : str) : stops isspace s -> lstrip s = s.
Proof.
  destruct s as [|c s]; simpl; [reflexivity|]. intros ->. reflexivity.
Qed.

Lemma rstrip_spaces (s ws : str) :
  forallb isspace ws = true -> rstrip (s ++ ws) = rstrip s.
Proof.
  intros H. unfold rstrip. rewrite rev_app_distr.
  rewrite lstrip_spaces; [reflexivity|].
  rewrite forallb_forall in *. intros x Hx. apply H.
  apply in_rev. exact Hx.
Qed.

Lemma rstrip_nonspace (s : str) (c : char) :
  isspace c = false -> rstrip (s ++ [c]) = s ++ [c].
Proof.
  intros H. unfold rstrip. rewrite rev_app_distr. simpl. rewrite H.
  simpl. rewrite rev_involutive. reflexivity.
Qed.

(** A text that starts and ends outside white space, between white
    space. *)
Lemma strip_core (ws1 ws2 body : str) (a b : char) :
  forallb isspace ws1 = true -> forallb isspace ws2 = true ->
  isspace a = false -> isspace b = false ->
  strip (ws1 ++ (a :: body ++ [b]) ++ ws2) = a :: body ++ [b].
Proof.
  intros H1 H2 Ha Hb. unfold strip.
  rewrite lstrip_spaces by exact H1.
  change ((a :: body ++ [b]) ++ ws2) with (a :: (body ++ [b]) ++ ws2).
  rewrite lstrip_stops by exact Ha.
  change (a :: (body ++ [b]) ++ ws2) with ((a :: body ++ [b]) ++ ws2).
  rewrite rstrip_spaces by exact H2.
  change (a :: body ++ [b]) with ((a :: body) ++ [b]).
  apply rstrip_nonspace. exact Hb.
Qed.

Lemma strip_spaces (ws1 ws2 s : str) :
  forallb isspace ws1 = true -> forallb isspace ws2 = true ->
  strip (ws1 ++ s ++ ws2) = strip s.
Proof.
  intros H1 H2. unfold strip.
  rewrite lstrip_spaces by exact H1.
  (* the white space on the right goes whatever [lstrip] left *)
  revert H2. generalize ws2. clear.
  induction s as [|c s IH]; intros ws2 H2.
  - simpl. rewrite <- (app_nil_r ws2), lstrip_spaces by exact H2.
    reflexivity.
  - simpl. destruct (isspace c); [apply IH; exact H2|].
    rewrite app_comm_cons. apply rstrip_spaces; exact H2.
Qed.

End Strip.

(* ================================================================== *)
(** ** The entries the two patterns give *)

Section Shapes.

Variable v : variant.

(** No text has both shapes: after the equals sign and the white space
    comes a brace in one and a double quote in the other. *)
Lemma shapes_disjoint t name V trailing name' V' :
  inline_table t name V trailing -> bare_string t name' V' -> False.
Proof.
  intros (ws1 & ws2 & ws3 & ws4 & ws5 & rest & -> & _ & Cn & C1 & C2 & _)
         (ws1' & ws2' & rest' & E & _ & Cn' & C1' & C2' & _).
  simpl in E.
  apply run_unique with (cls := name_char) in E as [<- E];
    auto using stops_name_tail.
  apply run_unique with (cls := isspace) in E as [<- E];
    auto; try reflexivity.
  injection E as E.
  apply run_unique with (cls := isspace) in E as [<- E];
    auto; try reflexivity.
  discriminate E.
Qed.

Lemma bare_not_inline t name V :
  bare_string t name V -> re_match (inline_re v) t = None.
Proof.
  intros B. destruct (re_match (inline_re v) t) as [m|] eqn:E; [|reflexivity].
  apply inline_re_match_some in E as (n & V0 & tr & _ & I).
  destruct (shapes_disjoint I B).
Qed.

(** What [classify] returns has the shape of its form. *)
Lemma classify_shape t e :
  classify v t = Some e ->
  match e with
  | InlineTable name V trailing => inline_table t name V trailing
  | BareString name V => bare_string t name V
  end.
Proof.
  unfold classify.
  destruct (re_match (inline_re v) t) as [m|] eqn:E.
  - apply inline_re_match_some in E as (n & V0 & tr & -> & I).
    intros [= <-]. exact I.
  - destruct (re_match (str_re v) t) as [m|] eqn:E'; [|discriminate].
    apply str_re_match_some in E' as (n & V0 & -> & B).
    intros [= <-]. exact B.
Qed.

Lemma classify_parts t e :
  classify v t = Some e ->
  entry_name e <> [] /\ forallb name_char (entry_name e) = true /\
  entry_version e <> [] /\ forallb not_dquote (entry_version e) = true /\
  forallb dot (entry_trailing e) = true /\
  startswith t (entry_name e) = true.
Proof.
  intros C. apply classify_shape in C. destruct e as [name V tr|name V].
  - destruct C as (ws1 & ws2 & ws3 & ws4 & ws5 & rest & -> & Hn & Cn & _ & _
                   & _ & _ & _ & HV & CV & Ct).
    cbn [entry_name entry_version entry_trailing].
    repeat split; auto using startswith_app.
  - destruct C as (ws1 & ws2 & rest & -> & Hn & Cn & _ & _ & HV & CV).
    cbn [entry_name entry_version entry_trailing].
    repeat split; auto using startswith_app.
Qed.

End Shapes.

(* ================================================================== *)
(** ** A rebuilt line read again *)

Ltac norm_app :=
  change (lit "}") with [ch "}"];
  repeat (progress cbn [app] || rewrite <- app_assoc).

Section ReadBack.

Variable v : variant.

Lemma exec_bol re (s : str) : exec (Bol :: re) 0 s = exec re 0 s.
Proof. reflexivity. Qed.

Lemma exec_lit c re pos (s : str) :
  exec (Lit c :: re) pos (c :: s) = exec re (S pos) s.
Proof. simpl. rewrite N.eqb_refl. reflexivity. Qed.

(** The inline-table pattern on a text of its shape that ends with the
    closing brace. *)
Lemma inline_re_runs (name ws1 ws2 ws3 ws4 ws5 V trailing : str) :
  name <> [] -> forallb name_char name = true ->
  forallb isspace ws1 = true -> forallb isspace ws2 = true ->
  forallb isspace ws3 = true -> forallb isspace ws4 = true ->
  forallb isspace ws5 = true ->
  V <> [] -> forallb not_dquote V = true ->
  forallb dot trailing = true ->
  re_match (inline_re v)
    (name ++ ws1 ++ ch "=" :: ws2 ++ ch "{" :: ws3 ++ lit "version" ++ ws4
          ++ ch "=" :: ws5 ++ dquote :: V ++ dquote :: trailing ++ [ch "}"])
  = Some [name; V; trailing].
Proof.
  intros Hn Cn C1 C2 C3 C4 C5 HV CV Ct.
  rewrite inline_re_latest.
  unfold re_match, UpdateDeps.inline_re.
  change (lit "version")
    with [ch "v"; ch "e"; ch "r"; ch "s"; ch "i"; ch "o"; ch "n"].
  cbn [Lits map app]. rewrite exec_bol.
  apply exec_group_run;
    [exact Cn | apply stops_name_tail; exact C1
    | apply nonempty_length_pos; exact Hn |].
  apply exec_many_run; [exact C1 | reflexivity | lia |].
  rewrite exec_lit.
  apply exec_many_run; [exact C2 | reflexivity | lia |].
  rewrite exec_lit.
  apply exec_many_run; [exact C3 | reflexivity | lia |].
  rewrite !exec_lit.
  apply exec_many_run; [exact C4 | reflexivity | lia |].
  rewrite exec_lit.
  apply exec_many_run; [exact C5 | reflexivity | lia |].
  rewrite exec_lit.
  apply exec_group_run;
    [exact CV | reflexivity | apply nonempty_length_pos; exact HV |].
  rewrite exec_lit.
  apply exec_trailing_brace. exact Ct.
Qed.

Lemma name_char_not_space_head (name : str) :
  name <> [] -> forallb name_char name = true ->
  exists c name', name = c :: name' /\ isspace c = false.
Proof.
  destruct name as [|c name']; [congruence|].
  intros _ H. simpl in H. apply andb_true_iff in H as [H _].
  exists c, name'. split; [reflexivity | apply name_not_space; exact H].
Qed.

Lemma strip_rebuilt_inline (name V trailing new_version : str) :
  name <> [] -> forallb name_char name = true ->
  strip (rebuilt (InlineTable name V trailing) new_version) =
  name ++ [ch " "] ++ ch "=" :: [ch " "] ++ ch "{" :: [ch " "]
       ++ lit "version" ++ [ch " "] ++ ch "=" :: [ch " "]
       ++ dquote :: new_version ++ dquote :: trailing ++ [ch "}"].
Proof.
  intros Hn Cn.
  destruct (name_char_not_space_head Hn Cn) as (c & name' & -> & Hc).
  cbn [rebuilt].
  transitivity
    (strip ([] ++ (c :: (name' ++ lit " = { version = " ++ [dquote]
                           ++ new_version ++ [dquote] ++ trailing)
                     ++ [ch "}"]) ++ [newline])).
  - f_equal. norm_app. reflexivity.
  - rewrite strip_core; try reflexivity; [|exact Hc].
    norm_app. reflexivity.
Qed.

Lemma strip_rebuilt_bare (name V new_version : str) :
  name <> [] -> forallb name_char name = true ->
  strip (rebuilt (BareString name V) new_version) =
  name ++ [ch " "] ++ [ch "="] ++ [ch " "] ++ [dquote] ++ new_version
       ++ [dquote] ++ [].
Proof.
  intros Hn Cn.
  destruct (name_char_not_space_head Hn Cn) as (c & name' & -> & Hc).
  cbn [rebuilt].
  transitivity
    (strip ([] ++ (c :: (name' ++ lit " = " ++ [dquote] ++ new_version)
                     ++ [dquote]) ++ [newline])).
  - f_equal. norm_app. reflexivity.
  - rewrite strip_core; try reflexivity; [|exact Hc].
    norm_app. reflexivity.
Qed.

(** A rebuilt line is read as the entry it was rebuilt from, with the
    new version. *)
Lemma classify_rebuilt t e new_version :
  classify v t = Some e ->
  new_version <> [] -> forallb not_dquote new_version = true ->
  classify v (strip (rebuilt e new_version)) = Some (with_version e new_version).
Proof.
  intros C Hv Cv.
  destruct (classify_parts v t C) as (Hn & Cn & _ & _ & Ct & _).
  destruct e as [name V tr|name V];
    cbn [entry_name entry_trailing with_version] in *.
  - rewrite strip_rebuilt_inline by assumption.
    unfold classify.
    rewrite (@inline_re_runs name [ch " "] [ch " "] [ch " "] [ch " "] [ch " "]
               new_version tr); auto.
  - rewrite strip_rebuilt_bare by assumption.
    apply classify_bare.
    + apply bare_not_inline with (name := name) (V := new_version).
      exists [ch " "], [ch " "], []. repeat split; auto.
    + exists [ch " "], [ch " "], []. repeat split; auto.
Qed.

End ReadBack.

(* ================================================================== *)
(** ** The flag along the lines written *)

Section Flag.

Variable v : variant.
Variable r : str -> option str.

Lemma next_deps_eq d line :
  next_deps v d line =
  if is_header (strip line)
  then existsb (startswith (strip line)) UpdateDeps.dep_sections
  else d.
Proof.
  unfold next_deps, step. destruct (is_header (strip line)) eqn:H.
  - rewrite loop_body_header by exact H. reflexivity.
  - rewrite loop_body_keeps_flag by exact H. reflexivity.
Qed.

Lemma classify_not_header t e :
  classify v t = Some e -> is_header t = false.
Proof.
  intros C. destruct (@classify_starts_with_name v t e C) as (c & t' & -> & N).
  apply name_first_not_header; exact N.
Qed.

Lemma rebuilt_not_header t e new_version :
  classify v t = Some e -> is_header (strip (rebuilt e new_version)) = false.
Proof.
  intros C. destruct (classify_parts v t C) as (Hn & Cn & _).
  destruct (name_char_not_space_head Hn Cn) as (c & name' & E & _).
  assert (name_char c = true) as N.
  { rewrite E in Cn. simpl in Cn. apply andb_true_iff in Cn as [N _].
    exact N. }
  destruct e as [name V tr|name V]; cbn [entry_name] in *.
  - rewrite strip_rebuilt_inline by assumption. rewrite E.
    apply name_first_not_header; exact N.
  - rewrite strip_rebuilt_bare by assumption. rewrite E.
    apply name_first_not_header; exact N.
Qed.

(** The line a turn writes is the line read or the rebuilt one. *)
Lemma line_out_cases d line :
  line_out v r d line = line \/
  exists e latest,
    d = true /\ classify v (strip line) = Some e /\
    r (entry_name e) = Some latest /\ latest <> [] /\
    latest <> entry_version e /\
    line_out v r d line = rebuilt e latest.
Proof.
  destruct d; [|left; apply line_out_outside].
  destruct (classify v (strip line)) as [e|] eqn:C;
    [|left; apply line_out_no_entry; exact C].
  rewrite (@line_out_entry v r true line e eq_refl C).
  destruct (r (entry_name e)) as [latest|] eqn:R; [|left; reflexivity].
  destruct (truthy (Some latest) && differs (Some latest) (entry_version e))
    eqn:T; [|left; reflexivity].
  right. exists e, latest.
  apply andb_true_iff in T as [T1 T2].
  repeat split; auto.
  - destruct latest; [discriminate T1 | discriminate].
  - unfold differs in T2. apply negb_true_iff, str_eqb_neq in T2. exact T2.
Qed.

Lemma next_deps_line_out d line :
  next_deps v d (line_out v r d line) = next_deps v d line.
Proof.
  destruct (line_out_cases d line)
    as [->|(e & latest & _ & C & _ & _ & _ & ->)]; [reflexivity|].
  rewrite !next_deps_eq.
  rewrite (rebuilt_not_header _ latest C), (classify_not_header _ C).
  reflexivity.
Qed.

Lemma flag_after_cons d line lines :
  flag_after v d (line :: lines) = flag_after v (next_deps v d line) lines.
Proof. reflexivity. Qed.

Lemma flag_after_outputs lines : forall d,
  flag_after v d (outputs v r d lines) = flag_after v d lines.
Proof.
  induction lines as [|line lines IH]; intros d; [reflexivity|].
  cbn [outputs]. rewrite !flag_after_cons, next_deps_line_out. apply IH.
Qed.

Lemma outputs_firstn lines : forall d i,
  firstn i (outputs v r d lines) = outputs v r d (firstn i lines).
Proof.
  induction lines as [|line lines IH]; intros d [|i]; try reflexivity.
  cbn [outputs firstn]. rewrite IH. reflexivity.
Qed.

Lemma outputs_app l1 : forall d l2,
  outputs v r d (l1 ++ l2) =
  outputs v r d l1 ++ outputs v r (flag_after v d l1) l2.
Proof.
  induction l1 as [|line l1 IH]; intros d l2; [reflexivity|].
  cbn [app outputs]. rewrite IH. reflexivity.
Qed.

Lemma events_app l1 : forall d l2,
  events v r d (l1 ++ l2) =
  events v r d l1 ++ events v r (flag_after v d l1) l2.
Proof.
  induction l1 as [|line l1 IH]; intros d l2; [reflexivity|].
  cbn [app events]. rewrite IH, app_assoc. reflexivity.
Qed.

End Flag.

(* ================================================================== *)
(** ** A second run *)

Section Again.

Variable v : variant.
Variable r : str -> option str.
Hypothesis r_quote_free : quote_free r.

Lemma cond_true_inv (latest : option str) (V : str) :
  truthy latest && differs latest V = true ->
  exists l, latest = Some l /\ l <> [] /\ l <> V.
Proof.
  intros T. apply andb_true_iff in T as [T1 T2].
  destruct latest as [l|]; [|discriminate T1].
  exists l. split; [reflexivity|]. split.
  - destruct l; [discriminate T1 | discriminate].
  - unfold differs in T2. apply negb_true_iff, str_eqb_neq in T2. exact T2.
Qed.

Lemma line_out_again d line :
  line_out v r d (line_out v r d line) = line_out v r d line /\
  printed (trace (step v r d (line_out v r d line))) = [].
Proof.
  destruct d;
    [|rewrite !line_out_outside, step_trace_outside; auto].
  destruct (classify v (strip line)) as [e|] eqn:C.
  - rewrite (@line_out_entry v r true line e eq_refl C).
    destruct (truthy (r (entry_name e))
              && differs (r (entry_name e)) (entry_version e)) eqn:T.
    + destruct (cond_true_inv _ _ T) as (latest & R & Hl & Hd).
      rewrite R. cbn [format].
      pose proof (classify_rebuilt v (strip line) C Hl (r_quote_free R))
        as C2.
      assert (entry_name (with_version e latest) = entry_name e) as En
        by (destruct e; reflexivity).
      assert (entry_version (with_version e latest) = latest) as Ev
        by (destruct e; reflexivity).
      rewrite (@line_out_entry v r true _ _ eq_refl C2).
      rewrite (@step_trace_entry v r _ _ C2).
      rewrite En, Ev, R.
      rewrite (truthy_differs_false (V := latest)) by auto.
      auto.
    + rewrite (@line_out_entry v r true line e eq_refl C), T.
      rewrite (@step_trace_entry v r line e C), T. auto.
  - rewrite !(line_out_no_entry v r true line C).
    rewrite (step_trace_no_entry v r true line C). auto.
Qed.

Lemma outputs_again lines : forall d,
  outputs v r d (outputs v r d lines) = outputs v r d lines /\
  printed (events v r d (outputs v r d lines)) = [].
Proof.
  induction lines as [|line lines IH]; intros d; [auto|].
  cbn [outputs events].
  destruct (line_out_again d line) as [L P].
  rewrite L, next_deps_line_out, printed_app, P.
  destruct (IH (next_deps v d line)) as [IH1 IH2].
  rewrite IH1, IH2. auto.
Qed.

End Again.

Lemma two_answers_quote_free : quote_free two_answers.
Proof.
  intros name latest H. unfold two_answers in H.
  destruct (str_eqb name (lit "serde")); [injection H as <-; reflexivity|].
  destruct (str_eqb name (lit "libc")); [injection H as <-; reflexivity|].
  discriminate H.
Qed.

(* ================================================================== *)
(** ** The lookups of a run *)

Section Lookups.

Variable v : variant.

Lemma step_looked_up (r : str -> option str) d line :
  looked_up (trace (step v r d line)) =
  if d then
    match classify v (strip line) with
    | Some e => [entry_name e]
    | None => []
    end
  else [].
Proof.
  destruct d; [|rewrite step_trace_outside; reflexivity].
  destruct (classify v (strip line)) as [e|] eqn:C.
  - rewrite (@step_trace_entry v r line e C).
    destruct (truthy _ && differs _ _); reflexivity.
  - rewrite (step_trace_no_entry v r true line C). reflexivity.
Qed.

Lemma step_printed_length (r : str -> option str) d line :
  length (printed (trace (step v r d line))) <=
  length (looked_up (trace (step v r d line))) /\
  length (looked_up (trace (step v r d line))) <= 1.
Proof.
  destruct d; [|rewrite step_trace_outside; simpl; lia].
  destruct (classify v (strip line)) as [e|] eqn:C.
  - rewrite (@step_trace_entry v r line e C).
    destruct (truthy _ && differs _ _); simpl; lia.
  - rewrite (step_trace_no_entry v r true line C). simpl; lia.
Qed.

Lemma events_looked_up (r r' : str -> option str) lines : forall d,
  looked_up (events v r d lines) = looked_up (events v r' d lines).
Proof.
  induction lines as [|line lines IH]; intros d; [reflexivity|].
  cbn [events]. rewrite !looked_up_app, !step_looked_up, (IH _).
  reflexivity.
Qed.

Lemma events_counts (r : str -> option str) lines : forall d,
  length (printed (events v r d lines)) <=
  length (looked_up (events v r d lines)) /\
  length (looked_up (events v r d lines)) <= length lines.
Proof.
  induction lines as [|line lines IH]; intros d; [simpl; lia|].
  cbn [events]. rewrite printed_app, looked_up_app, !length_app.
  destruct (IH (next_deps v d line)) as [IH1 IH2].
  destruct (step_printed_length r d line) as [S1 S2].
  cbn [length]. lia.
Qed.

Lemma outputs_kept (r : str -> option str) lines : forall d,
  (forall name, truthy (r name) = false) ->
  outputs v r d lines = lines /\ printed (events v r d lines) = [].
Proof.
  induction lines as [|line lines IH]; intros d H; [auto|].
  destruct (IH (next_deps v d line) H) as [IH1 IH2].
  cbn [outputs events]. rewrite IH1, printed_app, IH2, app_nil_r.
  destruct d.
  - destruct (classify v (strip line)) as [e|] eqn:C.
    + rewrite (@line_out_entry v r true line e eq_refl C).
      rewrite (@step_trace_entry v r line e C).
      rewrite H. auto.
    + rewrite (line_out_no_entry v r true line C).
      rewrite (step_trace_no_entry v r true line C). auto.
  - rewrite line_out_outside, step_trace_outside. auto.
Qed.

Lemma header_line_out (r : str -> option str) d line :
  is_header (strip line) = true ->
  line_out v r d line = line /\ trace (step v r d line) = [] /\
  next_deps v d line = next_deps v false line.
Proof.
  intros H. unfold line_out, step.
  rewrite loop_body_header by exact H.
  rewrite !next_deps_eq, H. auto.
Qed.

End Lookups.

(** X3. In both scripts, the names looked up, in their order, are the
    same under any two lookups: which packages are asked for depends on
    the lines read and on no answer. *)
Theorem lookups_independent (v : variant) (r r' : str -> option str)
  (lines : list str) :
  looked_up (snd (process_file v r lines)) =
  looked_up (snd (process_file v r' lines)).
Proof.
  rewrite !process_file_outputs. cbn [snd]. apply events_looked_up.
Qed.

(** X4. In both scripts, a run prints no more diagnostics than it makes
    lookups, and makes no more lookups than it reads lines. *)
Theorem trace_counts (v : variant) (r : str -> option str)
  (lines : list str) :
  length (printed (snd (process_file v r lines))) <=
    length (looked_up (snd (process_file v r lines))) /\
  length (looked_up (snd (process_file v r lines))) <= length lines.
Proof.
  rewrite !process_file_outputs. cbn [snd]. apply events_counts.
Qed.

(** X5. In both scripts, when the lookup answers every name with absence
    or with the empty text, the lines written are the lines read and
    nothing is printed. *)
Theorem no_answers_no_change (v : variant) (r : str -> option str)
  (lines : list str) :
  (forall name, r name = None \/ r name = Some []) ->
  fst (process_file v r lines) = lines /\
  printed (snd (process_file v r lines)) = [].
Proof.
  intros H. rewrite !process_file_outputs. cbn [fst snd].
  apply outputs_kept. intros name.
  destruct (H name) as [-> | ->]; reflexivity.
Qed.

Lemma no_answers_no_change_witness :
  fst (process_file Stable empty_answer sample_manifest) = sample_manifest /\
  printed (snd (process_file Stable empty_answer sample_manifest)) = [].
Proof.
  apply (@no_answers_no_change Stable empty_answer sample_manifest).
  intros name. right. reflexivity.
Defined.

(** X6. In both scripts, a bracketed line cuts the run in two: the lines
    written and the trace for lines that go on with a bracketed line are
    those of the lines before it followed by those of a fresh run from
    it. *)
Theorem header_cuts_run (v : variant) (r : str -> option str)
  (before : list str) (header : str) (after : list str) :
  startswith (strip header) (lit "[") = true ->
  endswith (strip header) (lit "]") = true ->
  process_file v r (before ++ header :: after) =
  (fst (process_file v r before) ++ fst (process_file v r (header :: after)),
   snd (process_file v r before) ++ snd (process_file v r (header :: after))).
Proof.
  intros H1 H2.
  assert (is_header (strip header) = true) as H
    by (unfold is_header; rewrite H1, H2; reflexivity).
  rewrite !process_file_outputs. cbn [fst snd].
  rewrite outputs_app, events_app. cbn [outputs events].
  destruct (header_line_out v r (flag_after v false before) header H)
    as (L & T & N).
  destruct (header_line_out v r false header H) as (L' & T' & _).
  rewrite L, T, N, L', T'. reflexivity.
Qed.

Lemma header_cuts_run_witness :
  process_file Latest two_answers
    ([deps_header; serde_line] ++ profile_header :: [libc_line]) =
  (fst (process_file Latest two_answers [deps_header; serde_line])
     ++ fst (process_file Latest two_answers [profile_header; libc_line]),
   snd (process_file Latest two_answers [deps_header; serde_line])
     ++ snd (process_file Latest two_answers [profile_header; libc_line])).
Proof.
  apply (@header_cuts_run Latest two_answers [deps_header; serde_line]
           profile_header [libc_line]); reflexivity.
Defined.

(* ================================================================== *)
(** ** What the entry matcher gives *)

(** X7. In both scripts, no trimmed text matches both patterns: the
    order in which the loop tries them decides nothing. *)
Theorem patterns_disjoint (v : variant) (t : str) :
  re_match (inline_re v) t = None \/ re_match (str_re v) t = None.
Proof.
  destruct (re_match (inline_re v) t) as [m|] eqn:E; [|left; reflexivity].
  destruct (re_match (str_re v) t) as [m'|] eqn:E'; [|right; reflexivity].
  exfalso.
  apply inline_re_match_some in E as (n & V & tr & _ & I).
  apply str_re_match_some in E' as (n' & V' & _ & B).
  exact (shapes_disjoint I B).
Qed.

(** X8. In both scripts, the entry read on a trimmed line has a name
    that is not empty, is made of [a-z0-9-_] and starts the trimmed line,
    a declared version that is not empty and holds no double quote, and
    trailing attributes that hold no newline. *)
Theorem entry_parts (v : variant) (t : str) (e : entry) :
  classify v t = Some e ->
  entry_name e <> [] /\ forallb name_char (entry_name e) = true /\
  entry_version e <> [] /\ forallb not_dquote (entry_version e) = true /\
  forallb dot (entry_trailing e) = true /\
  startswith t (entry_name e) = true.
Proof.
  intros C. apply classify_shape in C. destruct e as [name V tr|name V].
  - destruct C as (ws1 & ws2 & ws3 & ws4 & ws5 & rest & -> & Hn & Cn & _ & _
                   & _ & _ & _ & HV & CV & Ct).
    cbn [entry_name entry_version entry_trailing].
    repeat split; auto using startswith_app.
  - destruct C as (ws1 & ws2 & rest & -> & Hn & Cn & _ & _ & HV & CV).
    cbn [entry_name entry_version entry_trailing].
    repeat split; auto using startswith_app.
Qed.

Lemma entry_parts_witness :
  forallb name_char (lit "serde") = true /\
  startswith (strip serde_line) (lit "serde") = true.
Proof.
  destruct (@entry_parts Latest (strip serde_line)
              (InlineTable (lit "serde") (lit "1.0.0")
                 (lit ", features = [" ++ quoted (lit "derive") ++ lit "] "))
              eq_refl) as (_ & H1 & _ & _ & _ & H2).
  split; [exact H1 | exact H2].
Defined.

Lemma looked_up_names (v : variant) (r : str -> option str) lines :
  forall d name,
    In name (looked_up (events v r d lines)) ->
    name <> [] /\ forallb name_char name = true.
Proof.
  induction lines as [|line lines IH]; intros d name; [intros []|].
  cbn [events]. rewrite looked_up_app, in_app_iff, step_looked_up.
  intros [H|H]; [|exact (IH _ _ H)].
  destruct d; [|destruct H].
  destruct (classify v (strip line)) as [e|] eqn:C; [|destruct H].
  destruct H as [<-|[]].
  destruct (classify_parts v _ C) as (H1 & H2 & _). auto.
Qed.

(** X9. In both scripts, every name handed to the lookup is a non-empty
    text of the characters [a-z0-9-_]: nothing else reaches the address of
    the request. *)
Theorem lookup_names_well_formed (v : variant) (r : str -> option str)
  (lines : list str) (name : str) :
  In name (looked_up (snd (process_file v r lines))) ->
  name <> [] /\ forallb name_char name = true.
Proof.
  rewrite process_file_outputs. cbn [snd]. apply looked_up_names.
Qed.

Lemma lookup_names_well_formed_witness :
  forallb name_char (lit "libc") = true.
Proof.
  apply (@lookup_names_well_formed Latest two_answers sample_manifest
           (lit "libc")).
  vm_compute. right. left. reflexivity.
Defined.

(** X10. In both scripts, a line rebuilt with a new version that holds no
    double quote reads back as the same entry with the new version in
    place of the declared one: same form, same name, same trailing
    attributes. *)
Theorem rebuilt_reads_back (v : variant) (r : str -> option str)
  (st : loop_state) (line : str) (e : entry) (new_version : str) :
  in_deps st = true ->
  classify v (strip line) = Some e ->
  r (entry_name e) = Some new_version ->
  new_version <> [] -> new_version <> entry_version e ->
  forallb not_dquote new_version = true ->
  exists out,
    new_lines (loop_body v r st line) = new_lines st ++ [out] /\
    classify v (strip out) = Some (with_version e new_version).
Proof.
  intros D C R H1 H2 Q.
  exists (rebuilt e new_version). split.
  - rewrite (@loop_body_entry v r st line e D C). cbv zeta.
    rewrite R, (truthy_differs_true H1 H2). reflexivity.
  - apply (classify_rebuilt v (strip line) C H1 Q).
Qed.

Lemma rebuilt_reads_back_witness :
  exists out,
    new_lines (loop_body Latest two_answers (blank true) serde_line) = [out] /\
    classify Latest (strip out) =
    Some (InlineTable (lit "serde") (lit "1.0.200")
            (lit ", features = [" ++ quoted (lit "derive") ++ lit "] ")).
Proof.
  apply (@rebuilt_reads_back Latest two_answers (blank true) serde_line
           (InlineTable (lit "serde") (lit "1.0.0")
              (lit ", features = [" ++ quoted (lit "derive") ++ lit "] "))
           (lit "1.0.200")); try reflexivity; discriminate.
Defined.

(* ================================================================== *)
(** ** The inline-table pattern *)

Section Inline.

Lemma greedy_max (A : Type) (min k : nat) (rest : nat -> option A) r :
  greedy min k rest = Some r ->
  exists j, min <= j /\ j <= k /\ rest j = Some r /\
            forall j', j < j' -> j' <= k -> rest j' = None.
Proof.
  induction k as [|k IH]; simpl.
  - destruct (0 <? min) eqn:E; [discriminate|].
    apply Nat.ltb_ge in E.
    destruct (rest 0) eqn:R; [|discriminate].
    intros [= <-]. exists 0. repeat split; auto. intros j' H1 H2. lia.
  - destruct (S k <? min) eqn:E; [discriminate|].
    apply Nat.ltb_ge in E.
    destruct (rest (S k)) eqn:R.
    + intros [= <-]. exists (S k). repeat split; auto.
      intros j' H1 H2. lia.
    + intros H. destruct (IH H) as (j & H1 & H2 & H3 & H4).
      exists j. repeat split; auto.
      intros j' L1 L2.
      destruct (Nat.eq_dec j' (S k)) as [->|]; [exact R|].
      apply H4; lia.
Qed.

Lemma exec_lit_inv c re pos (s : str) gs :
  exec (Lit c :: re) pos s = Some gs ->
  exists s', s = c :: s' /\ exec re (S pos) s' = Some gs.
Proof.
  simpl. destruct s as [|c' s]; [discriminate|].
  destruct (N.eqb_spec c' c) as [->|]; [|discriminate].
  intros H. exists s. auto.
Qed.

Lemma exec_many_inv cls min re pos (s : str) gs :
  exec (Many cls min :: re) pos s = Some gs ->
  exists w s', s = w ++ s' /\ forallb cls w = true /\ min <= length w /\
               exec re (pos + length w) s' = Some gs.
Proof.
  simpl. intros H. apply greedy_sound in H as (j & H1 & H2 & H3).
  assert (length (firstn j s) = j) as L
    by (apply firstn_length_le; pose proof (span_le_length cls s); lia).
  exists (firstn j s), (skipn j s).
  rewrite firstn_skipn, L.
  repeat split; auto using span_firstn.
Qed.

(** A group takes the longest run after which the rest matches. *)
Lemma exec_group_inv cls min re pos (s : str) gs :
  exec (Group cls min :: re) pos s = Some gs ->
  exists w s' gs',
    s = w ++ s' /\ gs = w :: gs' /\ forallb cls w = true /\
    min <= length w /\ exec re (pos + length w) s' = Some gs' /\
    forall w2 s2,
      s' = w2 ++ s2 -> w2 <> [] -> forallb cls w2 = true ->
      exec re (pos + (length w + length w2)) s2 = None.
Proof.
  simpl. intros H. apply greedy_max in H as (j & H1 & H2 & H3 & H4).
  destruct (exec re (pos + j) (skipn j s)) as [gs'|] eqn:E; [|discriminate].
  injection H3 as <-.
  assert (length (firstn j s) = j) as L
    by (apply firstn_length_le; pose proof (span_le_length cls s); lia).
  exists (firstn j s), (skipn j s), gs'.
  rewrite firstn_skipn, L.
  repeat split; auto using span_firstn.
  intros w2 s2 E2 N C2.
  assert (s = (firstn j s ++ w2) ++ s2) as Es
    by (rewrite <- app_assoc, <- E2, firstn_skipn; reflexivity).
  assert (forallb cls (firstn j s ++ w2) = true) as Cw
    by (apply forallb_app_true; auto using span_firstn).
  pose proof (span_app cls (firstn j s ++ w2) s2 Cw) as Sp.
  rewrite <- Es, length_app, L in Sp.
  assert (0 < length w2) as Lw by (destruct w2; simpl; [congruence | lia]).
  specialize (H4 (j + length w2) ltac:(lia) Sp).
  assert (skipn (j + length w2) s = s2) as Sk.
  { rewrite Es at 1.
    replace (j + length w2) with (length (firstn j s ++ w2))
      by (rewrite length_app, L; reflexivity).
    apply skipn_length_app. }
  rewrite Sk in H4.
  destruct (exec re (pos + (j + length w2)) s2); [discriminate H4|].
  reflexivity.
Qed.

Ltac inv_exec H :=
  match type of H with
  | exec (Bol :: _) 0 _ = Some _ => rewrite exec_bol in H
  | exec (Lit _ :: _) _ _ = Some _ =>
      let s := fresh "s" in
      let E := fresh "E" in
      apply exec_lit_inv in H as (s & E & H)
  | exec (Many _ _ :: _) _ _ = Some _ =>
      let w := fresh "ws" in
      let s := fresh "s" in
      let E := fresh "E" in
      let C := fresh "C" in
      apply exec_many_inv in H as (w & s & E & C & _ & H)
  | exec (Group _ _ :: _) _ _ = Some _ =>
      let w := fresh "w" in
      let s := fresh "s" in
      let gs := fresh "gs" in
      let E := fresh "E" in
      let G := fresh "G" in
      let C := fresh "C" in
      let L := fresh "L" in
      let M := fresh "M" in
      apply exec_group_inv in H as (w & s & gs & E & G & C & L & H & M)
  | exec [] _ _ = Some _ => injection H as H
  end.

(** What a match of the inline-table pattern says of the text, with the
    trailing attributes the longest there are. *)
Lemma inline_re_longest v t m :
  re_match (inline_re v) t = Some m ->
  exists name V trailing rest,
    m = [name; V; trailing] /\
    inline_table_with t name V trailing rest /\
    forall a b, rest = a ++ ch "}" :: b -> forallb dot a = true -> False.
Proof.
  rewrite inline_re_latest. unfold re_match, UpdateDeps.inline_re.
  change (lit "version")
    with [ch "v"; ch "e"; ch "r"; ch "s"; ch "i"; ch "o"; ch "n"].
  cbn [Lits map app]. intros H.
  repeat inv_exec H. subst.
  do 4 eexists. split; [reflexivity|]. split.
  - do 5 eexists. split; [cbn [app]; reflexivity|].
    repeat split; auto using length_pos_nonempty.
  - intros a b E Ha.
    match goal with
    | M : forall w2 s2, ch "}" :: _ = w2 ++ s2 -> _ |- _ =>
        specialize (M (ch "}" :: a) (ch "}" :: b));
        rewrite E in M;
        specialize (M eq_refl ltac:(discriminate));
        cbn [forallb] in M; rewrite Ha in M;
        specialize (M eq_refl);
        rewrite exec_lit in M; discriminate M
    end.
Qed.

Lemma inline_table_unique t name V trailing name' V' trailing' :
  inline_table t name V trailing -> inline_table t name' V' trailing' ->
  name = name' /\ V = V'.
Proof.
  intros (ws1 & ws2 & ws3 & ws4 & ws5 & rest & -> & _ & Cn & C1 & C2 & C3
          & C4 & C5 & _ & CV & _)
         (ws1' & ws2' & ws3' & ws4' & ws5' & rest' & E & _ & Cn' & C1' & C2'
          & C3' & C4' & C5' & _ & CV' & _).
  change (lit "version")
    with [ch "v"; ch "e"; ch "r"; ch "s"; ch "i"; ch "o"; ch "n"] in E.
  cbn [app] in E.
  apply run_unique with (cls := name_char) in E as [<- E];
    auto using stops_name_tail.
  apply run_unique with (cls := isspace) in E as [<- E];
    auto; try reflexivity.
  injection E as E.
  apply run_unique with (cls := isspace) in E as [<- E];
    auto; try reflexivity.
  injection E as E.
  apply run_unique with (cls := isspace) in E as [<- E];
    auto; try reflexivity.
  injection E as E.
  apply run_unique with (cls := isspace) in E as [<- E];
    auto; try reflexivity.
  injection E as E.
  apply run_unique with (cls := isspace) in E as [<- E];
    auto; try reflexivity.
  injection E as E.
  apply run_unique with (cls := not_dquote) in E as [<- E];
    auto; reflexivity.
Qed.

Lemma shape_inline_re v t name V trailing :
  inline_table t name V trailing ->
  matches (inline_re v) 0 t [name; V; trailing].
Proof.
  intros (ws1 & ws2 & ws3 & ws4 & ws5 & rest & -> & Hn & Cn & C1 & C2 & C3
          & C4 & C5 & HV & CV & Ct).
  rewrite inline_re_latest. unfold UpdateDeps.inline_re.
  change (lit "version")
    with [ch "v"; ch "e"; ch "r"; ch "s"; ch "i"; ch "o"; ch "n"].
  cbn [Lits map app].
  apply m_bol, m_group; auto using nonempty_length_pos.
  apply m_many; [exact C1 | lia |]. apply m_lit.
  apply m_many; [exact C2 | lia |]. apply m_lit.
  apply m_many; [exact C3 | lia |]. do 7 apply m_lit.
  apply m_many; [exact C4 | lia |]. apply m_lit.
  apply m_many; [exact C5 | lia |]. apply m_lit.
  apply m_group; auto using nonempty_length_pos. apply m_lit.
  apply m_group; [exact Ct | lia |]. apply m_lit. constructor.
Qed.

Lemma inline_table_matches v t name V trailing :
  inline_table t name V trailing ->
  exists trailing', re_match (inline_re v) t = Some [name; V; trailing'].
Proof.
  intros I. pose proof (shape_inline_re v I) as M.
  apply exec_complete in M. unfold re_match.
  destruct (exec (inline_re v) 0 t) as [gs|] eqn:E; [|congruence].
  apply exec_sound, inline_re_shape in E as (n & V0 & tr & -> & I').
  destruct (inline_table_unique I I') as [-> ->]. eauto.
Qed.

End Inline.

(** X11. In both scripts, a trimmed text of the shape of an inline table
    is classified as an inline-table entry with the name and the version
    of the shape, and a trimmed text that has not this shape does not
    match the inline-table pattern. *)
Theorem inline_table_form (v : variant) (t : str) :
  (forall name V trailing,
     inline_table t name V trailing ->
     exists trailing', classify v t = Some (InlineTable name V trailing')) /\
  ((~ exists name V trailing, inline_table t name V trailing) ->
   re_match (inline_re v) t = None).
Proof.
  split.
  - intros name V tr I.
    destruct (inline_table_matches v I) as [tr' M].
    exists tr'. unfold classify. rewrite M. reflexivity.
  - intros N. destruct (re_match (inline_re v) t) as [m|] eqn:E;
      [|reflexivity].
    exfalso. apply N.
    apply inline_re_match_some in E as (n & V & tr & _ & I). eauto.
Qed.

Lemma inline_table_form_witness :
  exists trailing',
    classify Latest (strip serde_line) =
    Some (InlineTable (lit "serde") (lit "1.0.0") trailing').
Proof.
  destruct (inline_table_form Latest (strip serde_line)) as [H _].
  apply (H (lit "serde") (lit "1.0.0")
           (lit ", features = [" ++ quoted (lit "derive") ++ lit "] ")).
  exists [ch " "], [ch " "], [ch " "], [ch " "], [ch " "], [].
  repeat split; try reflexivity; discriminate.
Defined.

(** X12. In both scripts, the trailing attributes of an inline-table
    entry go up to the last closing brace of the line: after the brace
    that closes them, no closing brace comes before a newline. *)
Theorem trailing_attrs_longest (v : variant) (t name V trailing : str) :
  classify v t = Some (InlineTable name V trailing) ->
  exists rest,
    inline_table_with t name V trailing rest /\
    forall a b, rest = a ++ ch "}" :: b -> forallb dot a = true -> False.
Proof.
  unfold classify.
  destruct (re_match (inline_re v) t) as [m|] eqn:E.
  - apply inline_re_longest in E as (n & V0 & tr & rest & -> & I & L).
    intros [= <- <- <-]. exists rest. auto.
  - destruct (re_match (str_re v) t); discriminate.
Qed.

(** A line with two closing braces: the trailing attributes hold the
    first one. *)
Lemma trailing_attrs_longest_witness :
  exists rest,
    inline_table_with
      (lit "a = { version = " ++ quoted (lit "1") ++ lit " } # }")
      (lit "a") (lit "1") (lit " } # ") rest.
Proof.
  destruct (@trailing_attrs_longest Latest
              (lit "a = { version = " ++ quoted (lit "1") ++ lit " } # }")
              (lit "a") (lit "1") (lit " } # ") eq_refl) as (rest & H & _).
  exists rest. exact H.
Defined.

(* ================================================================== *)
(** ** White space around a line *)

Lemma loop_body_same_strip v r st (l1 l2 : str) :
  strip l1 = strip l2 ->
  in_deps (loop_body v r st l1) = in_deps (loop_body v r st l2) /\
  trace (loop_body v r st l1) = trace (loop_body v r st l2) /\
  (new_lines (loop_body v r st l1) = new_lines st ++ [l1] \/
   new_lines (loop_body v r st l1) = new_lines (loop_body v r st l2)).
Proof.
  intros E. rewrite loop_body_latest. unfold UpdateDeps.loop_body.
  rewrite E.
  destruct (startswith (strip l2) (lit "[") && endswith (strip l2) (lit "]"));
    [cbn; auto|].
  destruct (negb (in_deps st) || startswith (strip l2) (lit "#")
            || is_empty (strip l2)); [cbn; auto|].
  destruct (re_match UpdateDeps.inline_re (strip l2)) as [m|].
  - cbv zeta. destruct (truthy _ && differs _ _); cbn; auto.
  - destruct (re_match UpdateDeps.str_re (strip l2)) as [m|]; [|cbn; auto].
    cbv zeta. destruct (truthy _ && differs _ _); cbn; auto.
Qed.

(** X13. In both scripts, white space before and after a line changes
    neither the flag nor the lookups and prints of its turn; the line
    written is the line read with its white space, or, when the line is
    rebuilt, the line rebuilt without it. *)
Theorem white_space_around (v : variant) (r : str -> option str)
  (st : loop_state) (ws1 ws2 line : str) :
  forallb isspace ws1 = true -> forallb isspace ws2 = true ->
  in_deps (loop_body v r st (ws1 ++ line ++ ws2)) =
    in_deps (loop_body v r st line) /\
  trace (loop_body v r st (ws1 ++ line ++ ws2)) =
    trace (loop_body v r st line) /\
  (new_lines (loop_body v r st (ws1 ++ line ++ ws2)) =
     new_lines st ++ [ws1 ++ line ++ ws2] \/
   new_lines (loop_body v r st (ws1 ++ line ++ ws2)) =
     new_lines (loop_body v r st line)).
Proof.
  intros H1 H2. apply loop_body_same_strip. apply strip_spaces; assumption.
Qed.

(** An indented entry is rebuilt without its indentation. *)
Lemma white_space_around_witness :
  new_lines (loop_body Latest two_answers (blank true)
               (lit "    " ++ libc_line ++ lit "  "))
  = [lit "libc = " ++ quoted (lit "0.2.150") ++ [newline]].
Proof.
  destruct (@white_space_around Latest two_answers (blank true)
              (lit "    ") (lit "  ") libc_line eq_refl eq_refl)
    as (_ & _ & [H|H]).
  - vm_compute in H. discriminate H.
  - rewrite H. reflexivity.
Defined.

(* ================================================================== *)
(** ** More on the version resolver *)

Section Resolvers.

Variable requests_get : str -> result response.
Variable exn_str : exn -> str.
Variable name : str.

Lemma first_stable_skip (before : list pyval) (nvs : list (str * bool))
  (rest : list pyval) :
  Forall2 is_version before nvs -> find qualifies nvs = None ->
  UpdateDepsStable.first_stable (before ++ rest) =
  UpdateDepsStable.first_stable rest.
Proof.
  induction 1 as [|x [num yanked] vs nvs' [Hn Hy] _ IH]; [reflexivity|].
  cbn [find]. destruct (qualifies (num, yanked)) eqn:Q; [discriminate|].
  intros F. cbn [app UpdateDepsStable.first_stable fst snd] in *.
  rewrite Hn, Hy. cbn [bind is_true contains].
  unfold qualifies in Q; cbn [fst snd] in Q.
  rewrite <- no_hyphen_contains in Q.
  destruct yanked; cbn [negb andb] in *; [exact (IH F)|].
  rewrite Q. exact (IH F).
Qed.

Lemma stable_from_data_cut (data : pyval) (before : list pyval)
  (nvs : list (str * bool)) (x : pyval) (after : list pyval) :
  get data (lit "versions") (PList []) = Ok (PList (before ++ x :: after)) ->
  Forall2 is_version before nvs -> find qualifies nvs = None ->
  UpdateDepsStable.from_data data =
  found <- UpdateDepsStable.first_stable (x :: after) ;;
  match found with
  | Some num => Ok num
  | None =>
      crate <- getitem data (lit "crate") ;;
      getitem crate (lit "max_version")
  end.
Proof.
  intros G T F. unfold UpdateDepsStable.from_data.
  rewrite G. cbn [bind iter]. rewrite (first_stable_skip _ T F).
  reflexivity.
Qed.

Lemma stable_from_data_none (data : pyval) (vs : list pyval)
  (nvs : list (str * bool)) :
  get data (lit "versions") (PList []) = Ok (PList vs) ->
  Forall2 is_version vs nvs -> find qualifies nvs = None ->
  UpdateDepsStable.from_data data = UpdateDeps.from_data data.
Proof.
  intros G T F. unfold UpdateDepsStable.from_data.
  rewrite G. cbn [bind iter]. rewrite (first_stable_typed T), F.
  reflexivity.
Qed.

(** Each resolver either prints nothing, or returns [None] and prints
    one diagnostic. *)
Lemma get_latest_version_outcome v :
  snd (get_latest_version v requests_get exn_str name) = [] \/
  exists e,
    get_latest_version v requests_get exn_str name =
    (PNone, [error_fetching exn_str name e]).
Proof.
  destruct (requests_get (lit "https://crates.io/api/v1/crates/" ++ name))
    as [resp|e] eqn:R.
  - destruct (Z.eq_dec (status_code resp) 200) as [S|S].
    + rewrite (@get_latest_version_200 requests_get exn_str name v resp R S).
      destruct (json resp) as [data|e]; cbn [bind]; [|eauto].
      destruct (from_data v data) as [x|e]; [left; reflexivity | eauto].
    + rewrite (@get_latest_version_status requests_get exn_str name v resp
                 R S).
      left; reflexivity.
  - right. exists e. apply get_latest_version_raise; exact R.
Qed.

End Resolvers.

(** X14. In update_deps.py, for a response of status 200 whose body
    decodes to an object with [crate.max_version], the resolver returns
    this value, whatever it is and whatever else the body holds, and
    prints nothing. *)
Theorem latest_returns_max_version (requests_get : str -> result response)
  (exn_str : exn -> str) (name : str) (resp : response)
  (data crate max_version : pyval) :
  requests_get (lit "https://crates.io/api/v1/crates/" ++ name) = Ok resp ->
  status_code resp = 200%Z ->
  json resp = Ok data ->
  getitem data (lit "crate") = Ok crate ->
  getitem crate (lit "max_version") = Ok max_version ->
  UpdateDeps.get_latest_version requests_get exn_str name = (max_version, []).
Proof.
  intros R S J C M.
  pose proof (@get_latest_version_200 requests_get exn_str name Latest resp
                R S) as E.
  cbn [get_latest_version from_data] in E. rewrite E, J. cbn [bind].
  unfold UpdateDeps.from_data. rewrite C. cbn [bind]. rewrite M.
  reflexivity.
Qed.

Lemma latest_returns_max_version_witness :
  UpdateDeps.get_latest_version registry_ok sample_exn_str (lit "tokio")
  = (PStr (lit "2.0.0-beta.1"), []).
Proof.
  apply (@latest_returns_max_version registry_ok sample_exn_str (lit "tokio")
           {| status_code := 200; json := Ok sample_body |} sample_body
           (PDict [(lit "max_version", PStr (lit "2.0.0-beta.1"))])
           (PStr (lit "2.0.0-beta.1")));
    reflexivity.
Defined.

(** X15. Both resolvers, on every request and every response: either
    nothing is printed to the error stream, or exactly one diagnostic
    [Error fetching {name}: {detail}] is printed and [None] is returned;
    no value is returned along with a diagnostic. *)
Theorem resolver_outcome (v : variant) (requests_get : str -> result response)
  (exn_str : exn -> str) (name : str) :
  snd (get_latest_version v requests_get exn_str name) = [] \/
  exists e,
    get_latest_version v requests_get exn_str name =
    (PNone, [lit "Error fetching " ++ name ++ lit ": " ++ exn_str e]).
Proof.
  destruct (get_latest_version_outcome requests_get exn_str name v)
    as [H|[e H]].
  - left. exact H.
  - right. exists e. rewrite H. reflexivity.
Qed.

(** X16. The two resolvers return and print the same whenever the stable
    one finds no version that qualifies: on every request that raises, on
    every response of another status than 200 or whose body does not
    decode, and on every body whose [versions] are absent, empty, or all
    yanked or with a hyphen. *)
Theorem stable_falls_back (requests_get : str -> result response)
  (exn_str : exn -> str) (name : str) :
  (forall resp data,
     requests_get (lit "https://crates.io/api/v1/crates/" ++ name) = Ok resp ->
     status_code resp = 200%Z ->
     json resp = Ok data ->
     exists vs nvs,
       get data (lit "versions") (PList []) = Ok (PList vs) /\
       Forall2 is_version vs nvs /\ find qualifies nvs = None) ->
  UpdateDepsStable.get_latest_version requests_get exn_str name =
  UpdateDeps.get_latest_version requests_get exn_str name.
Proof.
  intros H.
  destruct (requests_get (lit "https://crates.io/api/v1/crates/" ++ name))
    as [resp|e] eqn:R.
  - destruct (Z.eq_dec (status_code resp) 200) as [S|S].
    + pose proof (@get_latest_version_200 requests_get exn_str name Stable
                    resp R S) as E1.
      pose proof (@get_latest_version_200 requests_get exn_str name Latest
                    resp R S) as E2.
      cbn [get_latest_version from_data] in E1, E2. rewrite E1, E2.
      destruct (json resp) as [data|e] eqn:J; [|reflexivity].
      destruct (H resp data eq_refl S J) as (vs & nvs & G & T & F).
      cbn [bind]. rewrite (stable_from_data_none _ G T F). reflexivity.
    + pose proof (@get_latest_version_status requests_get exn_str name Stable
                    resp R S) as E1.
      pose proof (@get_latest_version_status requests_get exn_str name Latest
                    resp R S) as E2.
      cbn [get_latest_version] in E1, E2. rewrite E1, E2. reflexivity.
  - pose proof (@get_latest_version_raise requests_get exn_str name Stable
                  e R) as E1.
    pose proof (@get_latest_version_raise requests_get exn_str name Latest
                  e R) as E2.
    cbn [get_latest_version] in E1, E2. rewrite E1, E2. reflexivity.
Qed.

Lemma stable_falls_back_witness :
  UpdateDepsStable.get_latest_version registry_empty sample_exn_str
    (lit "serde")
  = UpdateDeps.get_latest_version registry_empty sample_exn_str (lit "serde").
Proof.
  apply (@stable_falls_back registry_empty sample_exn_str (lit "serde")).
  intros resp data R S J.
  injection R as <-. injection J as <-.
  exists [], []. repeat split. constructor.
Defined.

(** X17. The stable resolver reads the versions in order and stops at
    the first that qualifies: when the versions before it are yanked or
    hold a hyphen, its [num] is returned and nothing is printed, whatever
    the values that follow it in the list. *)
Theorem stable_stops_at_first (requests_get : str -> result response)
  (exn_str : exn -> str) (name : str) (resp : response) (data : pyval)
  (before : list pyval) (nvs : list (str * bool)) (x : pyval) (num : str)
  (after : list pyval) :
  requests_get (lit "https://crates.io/api/v1/crates/" ++ name) = Ok resp ->
  status_code resp = 200%Z ->
  json resp = Ok data ->
  get data (lit "versions") (PList []) = Ok (PList (before ++ x :: after)) ->
  Forall2 is_version before nvs -> find qualifies nvs = None ->
  is_version x (num, false) ->
  forallb (fun c => negb (c =? ch "-")%N) num = true ->
  UpdateDepsStable.get_latest_version requests_get exn_str name
  = (PStr num, []).
Proof.
  intros R S J G T F [Hn Hy] Q.
  pose proof (@get_latest_version_200 requests_get exn_str name Stable resp
                R S) as E.
  cbn [get_latest_version from_data] in E. rewrite E, J. cbn [bind].
  rewrite (stable_from_data_cut _ _ _ G T F).
  cbn [UpdateDepsStable.first_stable fst snd] in *.
  rewrite Hn, Hy. cbn [bind is_true contains negb].
  rewrite no_hyphen_contains, Q. reflexivity.
Qed.

Lemma stable_stops_at_first_witness :
  UpdateDepsStable.get_latest_version registry_junk sample_exn_str
    (lit "tokio")
  = (PStr (lit "1.9.0"), []).
Proof.
  apply (@stable_stops_at_first registry_junk sample_exn_str (lit "tokio")
           {| status_code := 200; json := Ok body_with_junk |} body_with_junk
           [version_json (lit "2.0.0-rc.1") false]
           [(lit "2.0.0-rc.1", false)]
           (version_json (lit "1.9.0") false) (lit "1.9.0") [PNone]
           eq_refl eq_refl eq_refl eq_refl);
    try reflexivity.
  - repeat constructor.
  - split; reflexivity.
Defined.

(** X18. In the stable resolver, a version that cannot be read, met
    before any version that qualifies, makes the lookup fail: when reading
    its [num] raises, the diagnostic of this exception is printed and
    [None] is returned, whatever follows it in the list. *)
Theorem stable_unreadable_version (requests_get : str -> result response)
  (exn_str : exn -> str) (name : str) (resp : response) (data : pyval)
  (before : list pyval) (nvs : list (str * bool)) (x : pyval) (e : exn)
  (after : list pyval) :
  requests_get (lit "https://crates.io/api/v1/crates/" ++ name) = Ok resp ->
  status_code resp = 200%Z ->
  json resp = Ok data ->
  get data (lit "versions") (PList []) = Ok (PList (before ++ x :: after)) ->
  Forall2 is_version before nvs -> find qualifies nvs = None ->
  getitem x (lit "num") = Raise e ->
  UpdateDepsStable.get_latest_version requests_get exn_str name
  = (PNone, [lit "Error fetching " ++ name ++ lit ": " ++ exn_str e]).
Proof.
  intros R S J G T F Hn.
  pose proof (@get_latest_version_200 requests_get exn_str name Stable resp
                R S) as E.
  cbn [get_latest_version from_data] in E. rewrite E, J. cbn [bind].
  rewrite (stable_from_data_cut _ _ _ G T F).
  cbn [UpdateDepsStable.first_stable]. rewrite Hn. reflexivity.
Qed.

Lemma stable_unreadable_version_witness :
  UpdateDepsStable.get_latest_version registry_without_num sample_exn_str
    (lit "tokio")
  = (PNone, [lit "Error fetching tokio: 'num'"]).
Proof.
  apply (@stable_unreadable_version registry_without_num sample_exn_str
           (lit "tokio")
           {| status_code := 200; json := Ok body_without_num |}
           body_without_num
           [version_json (lit "2.0.0-rc.1") false]
           [(lit "2.0.0-rc.1", false)]
           (PDict [(lit "yanked", PBool false)]) (KeyError (lit "num"))
           [version_json (lit "1.9.0") false]
           eq_refl eq_refl eq_refl eq_refl);
    try reflexivity.
  repeat constructor.
Defined.

(* ================================================================== *)
(** ** The flag and the nearest bracketed line above *)

Lemma flag_after_no_header v (lines : list str) : forall d,
  Forall (fun line => is_header (strip line) = false) lines ->
  flag_after v d lines = d.
Proof.
  induction lines as [|line lines IH]; intros d H; [reflexivity|].
  inversion H as [|? ? H1 H2]; subst.
  rewrite flag_after_cons, next_deps_eq, H1. apply IH; exact H2.
Qed.

Lemma flag_after_app v (l1 l2 : list str) d :
  flag_after v d (l1 ++ l2) = flag_after v (flag_after v d l1) l2.
Proof. unfold flag_after. apply fold_left_app. Qed.

(** X19. In both scripts, the flag is decided by the nearest bracketed
    line above: after lines without a bracketed line the flag is false,
    as at the start; after a bracketed line followed by lines that are not
    bracketed, whatever came before, the flag tells whether this bracketed
    line starts with one of the three literals. *)
Theorem flag_from_last_header (v : variant) (r : str -> option str)
  (before : list str) (header : str) (middle : list str) :
  Forall (fun line =>
            startswith (strip line) (lit "[")
            && endswith (strip line) (lit "]") = false) middle ->
  in_deps (run v r init middle) = false /\
  (startswith (strip header) (lit "[") = true ->
   endswith (strip header) (lit "]") = true ->
   in_deps (run v r init (before ++ header :: middle)) =
   existsb (startswith (strip header))
     [lit "[dependencies]"; lit "[dev-dependencies]";
      lit "[build-dependencies]"]).
Proof.
  intros M. split.
  - rewrite run_in_deps. apply flag_after_no_header; exact M.
  - intros H1 H2.
    rewrite run_in_deps, flag_after_app, flag_after_cons.
    rewrite flag_after_no_header by exact M.
    rewrite next_deps_eq. unfold is_header. rewrite H1, H2. reflexivity.
Qed.

Lemma flag_from_last_header_witness :
  in_deps (run Latest two_answers init
             ([profile_header; libc_line] ++ deps_header
                :: [serde_line; comment_line])) = true.
Proof.
  destruct (@flag_from_last_header Latest two_answers
              [profile_header; libc_line] deps_header
              [serde_line; comment_line]) as [_ H].
  - repeat constructor.
  - rewrite (H eq_refl eq_refl). reflexivity.
Defined.

(* ================================================================== *)
(** ** The function nothing calls *)

(** X20. [update_line] of update_deps.py returns the line it is given,
    whether its pattern matches the trimmed line or not. *)
Theorem update_line_returns_line (line : str) :
  UpdateDeps.update_line line = line.
Proof.
  unfold UpdateDeps.update_line.
  destruct (re_match UpdateDeps.update_line_re (strip line)); reflexivity.
Qed.

(* ================================================================== *)
(** ** No line changes in silence *)

(** X21. In both scripts, for every turn of the loop: either the line is
    written as read and nothing is printed, or the line declares an entry
    whose name was looked up, the diagnostic of the change is printed and
    the line written is the rebuilt one. *)
Theorem no_silent_change (v : variant) (r : str -> option str)
  (st : loop_state) (line : str) :
  (new_lines (loop_body v r st line) = new_lines st ++ [line] /\
   printed (trace (loop_body v r st line)) = printed (trace st)) \/
  (exists e latest,
     classify v (strip line) = Some e /\
     r (entry_name e) = Some latest /\
     trace (loop_body v r st line) =
       trace st ++
       [Lookup (entry_name e);
        Print (lit "Updating " ++ entry_name e ++ lit ": " ++ entry_version e
                   ++ lit " -> " ++ latest)] /\
     new_lines (loop_body v r st line) = new_lines st ++ [rebuilt e latest]).
Proof.
  destruct (in_deps st) eqn:D.
  - destruct (classify v (strip line)) as [e|] eqn:C.
    + rewrite !(@loop_body_entry v r st line e D C). cbv zeta.
      destruct (truthy (r (entry_name e))
                && differs (r (entry_name e)) (entry_version e)) eqn:T.
      * destruct (cond_true_inv _ _ T) as (latest & R & _ & _).
        right. exists e, latest. rewrite R.
        unfold append_line, emit; cbn [new_lines trace format].
        rewrite <- app_assoc. auto.
      * left. unfold append_line, emit; cbn [new_lines trace].
        rewrite printed_app. simpl. rewrite app_nil_r. auto.
    + left. rewrite !(@loop_body_no_entry v r st line C).
      destruct (is_header (strip line)); auto.
  - left. destruct (@loop_body_outside v r st line D) as [H1 H2].
    rewrite H1, H2. auto.
Qed.

(* ================================================================== *)
(** ** The simple-string form as worded *)

(** C2 as stated fails, both ways. In a dependency section, with
    [two_answers]: the line [libc_brace_line], whose trimmed text holds a
    brace after the closing quote and so is not [name = "V"] with no
    brace, does not match the inline-table pattern and is classified as a
    simple-string entry, looked up and rewritten; the line
    [libc_empty_line], whose trimmed text is [name = "V"] with no brace
    for the empty [V], is not classified and not looked up. *)
Lemma bare_string_form_counterexample :
  (re_match (inline_re Latest) (strip libc_brace_line) = None /\
   ~ bare_string_as_worded (strip libc_brace_line) /\
   classify Latest (strip libc_brace_line)
     = Some (BareString (lit "libc") (lit "0.2.0")) /\
   loop_body Latest two_answers (blank true) libc_brace_line =
     {| in_deps := true;
        new_lines := [lit "libc = " ++ quoted (lit "0.2.150") ++ [newline]];
        trace := [Lookup (lit "libc");
                  Print (lit "Updating libc: 0.2.0 -> 0.2.150")] |}) /\
  (re_match (inline_re Latest) (strip libc_empty_line) = None /\
   bare_string_as_worded (strip libc_empty_line) /\
   classify Latest (strip libc_empty_line) = None /\
   loop_body Latest two_answers (blank true) libc_empty_line =
     {| in_deps := true; new_lines := [libc_empty_line]; trace := [] |}).
Proof.
  split; repeat split; try reflexivity.
  - intros (name & ws1 & ws2 & V & _ & _ & _ & _ & _ & _ & H).
    vm_compute in H. discriminate H.
  - exists (lit "libc"), [ch " "], [ch " "], [].
    repeat split; try reflexivity. discriminate.
Qed.

(* ================================================================== *)
(** ** Reading and writing the file *)

Section TextMode.

Lemma translate_in_no_cr (s : str) : forall b,
  forallb not_cr (translate_in b s) = true.
Proof.
  induction s as [|c s IH]; intros b; [reflexivity|].
  cbn [translate_in].
  destruct (N.eqb_spec c cr) as [->|Hc].
  - cbn [forallb]. rewrite IH. reflexivity.
  - destruct ((c =? newline)%N && b); [apply IH|].
    cbn [forallb]. rewrite IH. unfold not_cr.
    destruct (N.eqb_spec c cr); [congruence | reflexivity].
Qed.

Lemma translate_in_id (s : str) :
  forallb not_cr s = true -> translate_in false s = s.
Proof.
  induction s as [|c s IH]; [reflexivity|].
  cbn [forallb translate_in]. intros H.
  apply andb_true_iff in H as [Hc H]. unfold not_cr in Hc.
  apply negb_true_iff in Hc. rewrite Hc, andb_false_r, (IH H).
  reflexivity.
Qed.

Lemma universal_newlines_idem (s : str) :
  universal_newlines (universal_newlines s) = universal_newlines s.
Proof. apply translate_in_id, translate_in_no_cr. Qed.

Lemma translate_out_newline (s : str) : translate_out [newline] s = s.
Proof.
  induction s as [|c s IH]; [reflexivity|].
  unfold translate_out in *. cbn [flat_map]. rewrite IH.
  destruct (N.eqb_spec c newline) as [->|]; reflexivity.
Qed.

Lemma concat_splitlines (s : str) : concat (splitlines s) = s.
Proof.
  induction s as [|c s IH]; [reflexivity|].
  cbn [splitlines]. destruct (c =? newline)%N.
  - cbn [concat app]. rewrite IH. reflexivity.
  - destruct (splitlines s) as [|l ls].
    + simpl in IH. subst s. reflexivity.
    + cbn [concat app] in *. rewrite IH. reflexivity.
Qed.

Lemma not_eol_parts (c : char) :
  not_eol c = true <-> c <> newline /\ c <> cr.
Proof.
  unfold not_eol. rewrite andb_true_iff, !negb_true_iff, !N.eqb_neq.
  tauto.
Qed.

Lemma splitlines_well_split (s : str) :
  forallb not_cr s = true -> well_split (splitlines s).
Proof.
  induction s as [|c s IH]; [constructor|].
  cbn [forallb splitlines]. intros H.
  apply andb_true_iff in H as [Hc H]. specialize (IH H).
  destruct (N.eqb_spec c newline) as [->|Hn].
  - apply ws_cons; [|exact IH]. exists []. auto.
  - assert (not_eol c = true) as E.
    { apply not_eol_parts. split; [exact Hn|].
      unfold not_cr in Hc. apply negb_true_iff, N.eqb_neq in Hc. exact Hc. }
    destruct (splitlines s) as [|l ls].
    + apply ws_open. split; [discriminate|]. simpl. rewrite E. reflexivity.
    + inversion IH as [|l' [Hl Cl]|l' ls' [body [-> Cb]] W]; subst.
      * apply ws_open. split; [discriminate|].
        simpl. rewrite E, Cl. reflexivity.
      * apply ws_cons; [|exact W]. exists (c :: body).
        split; [reflexivity|]. simpl. rewrite E, Cb. reflexivity.
Qed.

Lemma readlines_well_split (content : str) : well_split (readlines content).
Proof. apply splitlines_well_split, translate_in_no_cr. Qed.

Lemma splitlines_terminated (body rest : str) :
  forallb not_eol body = true ->
  splitlines (body ++ newline :: rest) = (body ++ [newline]) :: splitlines rest.
Proof.
  induction body as [|c body IH]; [reflexivity|].
  cbn [forallb]. intros H. apply andb_true_iff in H as [Hc H].
  apply not_eol_parts in Hc as [Hn _].
  cbn [app splitlines]. rewrite (IH H).
  destruct (N.eqb_spec c newline); [congruence | reflexivity].
Qed.

Lemma splitlines_open (l : str) :
  open_line l -> splitlines l = [l].
Proof.
  intros [Hl C]. induction l as [|c l IH]; [congruence|].
  cbn [forallb] in C. apply andb_true_iff in C as [Hc C].
  apply not_eol_parts in Hc as [Hn _].
  cbn [splitlines]. destruct (N.eqb_spec c newline); [congruence|].
  destruct l as [|d l]; [reflexivity|].
  rewrite IH by (discriminate || exact C). reflexivity.
Qed.

Lemma splitlines_concat (ls : list str) :
  well_split ls -> splitlines (concat ls) = ls.
Proof.
  induction 1 as [|l O|l ls [body [-> C]] W IH]; [reflexivity| |].
  - cbn [concat]. rewrite app_nil_r. apply splitlines_open; exact O.
  - cbn [concat]. rewrite <- app_assoc. cbn [app].
    rewrite splitlines_terminated by exact C. rewrite IH. reflexivity.
Qed.

Lemma not_eol_not_cr (s : str) :
  forallb not_eol s = true -> forallb not_cr s = true.
Proof.
  rewrite !forallb_forall. intros H x Hx. specialize (H x Hx).
  apply not_eol_parts in H as [_ H]. unfold not_cr.
  apply negb_true_iff, N.eqb_neq. exact H.
Qed.

Lemma terminated_no_cr (l : str) : terminated l -> forallb not_cr l = true.
Proof.
  intros [body [-> C]]. rewrite forallb_app, (not_eol_not_cr _ C).
  reflexivity.
Qed.

Lemma open_line_no_cr (l : str) : open_line l -> forallb not_cr l = true.
Proof. intros [_ C]. apply not_eol_not_cr; exact C. Qed.

Lemma well_split_no_cr (ls : list str) :
  well_split ls -> forallb not_cr (concat ls) = true.
Proof.
  induction 1 as [|l O|l ls T W IH]; [reflexivity| |].
  - cbn [concat]. rewrite app_nil_r. apply open_line_no_cr; exact O.
  - cbn [concat]. rewrite forallb_app, (terminated_no_cr T), IH.
    reflexivity.
Qed.

(** Lines as [readlines] gives them, written and read again. *)
Lemma readlines_concat (ls : list str) :
  well_split ls -> readlines (concat ls) = ls.
Proof.
  intros W. unfold readlines, universal_newlines.
  rewrite translate_in_id by (apply well_split_no_cr; exact W).
  apply splitlines_concat; exact W.
Qed.

(** What is read of a file is what is read of its translation. *)
Lemma readlines_universal (content : str) :
  readlines (universal_newlines content) = readlines content.
Proof. unfold readlines. rewrite universal_newlines_idem. reflexivity. Qed.

Lemma concat_readlines (content : str) :
  concat (readlines content) = universal_newlines content.
Proof. apply concat_splitlines. Qed.

End TextMode.

(* ================================================================== *)
(** ** The lines written are lines *)

Section WrittenLines.

Variable v : variant.
Variable r : str -> option str.
Hypothesis r_line_free : line_free r.

Lemma lstrip_in (s : str) x : In x (lstrip s) -> In x s.
Proof.
  induction s as [|c s IH]; simpl; [auto|].
  destruct (isspace c); simpl; auto.
Qed.

Lemma strip_in (s : str) x : In x (strip s) -> In x s.
Proof.
  unfold strip, rstrip. intros H.
  apply in_rev, lstrip_in in H. apply in_rev in H.
  apply lstrip_in; exact H.
Qed.

Lemma classify_trailing_in t e x :
  classify v t = Some e -> In x (entry_trailing e) -> In x t.
Proof.
  intros C. apply classify_shape in C. destruct e as [name V tr|name V];
    cbn [entry_trailing]; [|intros []].
  destruct C as (ws1 & ws2 & ws3 & ws4 & ws5 & rest & -> & _).
  intros H. rewrite !in_app_iff. tauto.
Qed.

Lemma name_char_not_eol c : name_char c = true -> not_eol c = true.
Proof.
  intros H. destruct (not_eol c) eqn:E; [reflexivity|exfalso].
  unfold not_eol in E. apply andb_false_iff in E as [E|E];
    apply negb_false_iff, N.eqb_eq in E; subst c; discriminate H.
Qed.

Lemma rebuilt_terminated line e latest :
  classify v (strip line) = Some e ->
  forallb not_cr line = true ->
  forallb not_eol latest = true ->
  terminated (rebuilt e latest).
Proof.
  intros C Hl Hv.
  destruct (classify_parts v _ C) as (_ & Cn & _ & _ & Ct & _).
  assert (forallb not_eol (entry_name e) = true) as Nn.
  { rewrite forallb_forall in *. intros x Hx.
    apply name_char_not_eol, Cn, Hx. }
  assert (forallb not_eol (entry_trailing e) = true) as Nt.
  { rewrite forallb_forall in *. intros x Hx.
    apply not_eol_parts. split.
    - specialize (Ct x Hx). unfold dot in Ct.
      apply negb_true_iff, N.eqb_neq in Ct. exact Ct.
    - pose proof (Hl x (strip_in _ _ (classify_trailing_in _ _ C Hx))) as H.
      unfold not_cr in H. apply negb_true_iff, N.eqb_neq in H. exact H. }
  destruct e as [name V tr|name V]; cbn [entry_name entry_trailing] in *.
  - exists (name ++ lit " = { version = " ++ [dquote] ++ latest ++ [dquote]
                 ++ tr ++ [ch "}"]).
    split.
    + cbn [rebuilt]. norm_app. reflexivity.
    + rewrite !forallb_app, Nn, Hv, Nt. reflexivity.
  - exists (name ++ lit " = " ++ [dquote] ++ latest ++ [dquote]).
    split.
    + cbn [rebuilt]. norm_app. reflexivity.
    + rewrite !forallb_app, Nn, Hv. reflexivity.
Qed.

Lemma line_out_terminated d line :
  terminated line -> terminated (line_out v r d line).
Proof.
  intros T.
  destruct (line_out_cases v r d line)
    as [->|(e & latest & _ & C & R & _ & _ & ->)]; [exact T|].
  apply rebuilt_terminated with (line := line);
    [exact C | apply terminated_no_cr; exact T | exact (r_line_free R)].
Qed.

Lemma line_out_open d line :
  open_line line ->
  open_line (line_out v r d line) \/ terminated (line_out v r d line).
Proof.
  intros O.
  destruct (line_out_cases v r d line)
    as [->|(e & latest & _ & C & R & _ & _ & ->)]; [left; exact O|].
  right. apply rebuilt_terminated with (line := line);
    [exact C | apply open_line_no_cr; exact O | exact (r_line_free R)].
Qed.

Lemma outputs_well_split lines :
  well_split lines -> forall d, well_split (outputs v r d lines).
Proof.
  induction 1 as [|l O|l ls T W IH]; intros d; cbn [outputs].
  - constructor.
  - destruct (@line_out_open d l O) as [O'|T'].
    + apply ws_open; exact O'.
    + apply ws_cons; [exact T' | constructor].
  - apply ws_cons; [apply line_out_terminated; exact T | apply IH].
Qed.

(** The file written, read again, gives the lines that were written. *)
Lemma readlines_written content :
  readlines (fst (process_manifest v [newline] r content)) =
  fst (process_file v r (readlines content)).
Proof.
  unfold process_manifest, writelines. cbn [fst].
  rewrite translate_out_newline, process_file_outputs. cbn [fst].
  apply readlines_concat, outputs_well_split, readlines_well_split.
Qed.

End WrittenLines.

(* ================================================================== *)
(** ** The whole pipeline on the file *)

Lemma same_answers_own_sample :
  forall i line e,
    nth_error (readlines sample_content) i = Some line ->
    in_deps (state_at Latest same_answers (readlines sample_content) i) = true ->
    classify Latest (strip line) = Some e ->
    same_answers (entry_name e) = Some (entry_version e).
Proof.
  intros i line e Hn _ Hc.
  change (readlines sample_content) with sample_manifest in Hn.
  do 6 (destruct i as [|i];
        [injection Hn as <-; vm_compute in Hc; try discriminate Hc;
         injection Hc as <-; reflexivity|]).
  destruct i; discriminate Hn.
Qed.

Lemma same_answers_own_crlf :
  forall i line e,
    nth_error (readlines crlf_content) i = Some line ->
    in_deps (state_at Latest same_answers (readlines crlf_content) i) = true ->
    classify Latest (strip line) = Some e ->
    same_answers (entry_name e) = Some (entry_version e).
Proof.
  intros i line e Hn _ Hc.
  change (readlines crlf_content)
    with [lit "[dependencies]" ++ [newline]; lit "# none" ++ [newline]] in Hn.
  do 2 (destruct i as [|i];
        [injection Hn as <-; vm_compute in Hc; discriminate Hc|]).
  destruct i; discriminate Hn.
Qed.

(** C7, amended. In both scripts, running the whole of [process_file] on
    the file with a lookup that answers, for every entry the loop reads in
    a dependency section, the version this entry declares: no line is
    rebuilt and nothing is printed; the file written is the file read
    with every line ending written as the line separator of the platform.
    Where this separator is the newline, the file written is the file read
    when the file holds no carriage return, and a second run on the file
    written gives the same file and trace again. *)
Theorem own_version_noop (v : variant) (linesep : str)
  (r : str -> option str) (content : str) :
  (forall i line e,
     nth_error (readlines content) i = Some line ->
     in_deps (state_at v r (readlines content) i) = true ->
     classify v (strip line) = Some e ->
     r (entry_name e) = Some (entry_version e)) ->
  fst (process_manifest v linesep r content) =
    translate_out linesep (universal_newlines content) /\
  printed (snd (process_manifest v linesep r content)) = [] /\
  (forallb not_cr content = true ->
   fst (process_manifest v [newline] r content) = content) /\
  process_manifest v [newline] r (fst (process_manifest v [newline] r content))
    = process_manifest v [newline] r content.
Proof.
  intros H. destruct (own_version_lines v r (readlines content) H) as [H1 H2].
  assert (forall sep, fst (process_manifest v sep r content) =
                      translate_out sep (universal_newlines content)) as F.
  { intros sep. unfold process_manifest, writelines. cbn [fst].
    rewrite H1, concat_readlines. reflexivity. }
  split; [apply F|]. split; [exact H2|]. split.
  - intros C. rewrite F, translate_out_newline.
    apply translate_in_id; exact C.
  - rewrite F, translate_out_newline.
    unfold process_manifest. rewrite readlines_universal. reflexivity.
Qed.

Lemma own_version_noop_witness :
  fst (process_manifest Latest [newline] same_answers sample_content)
    = sample_content /\
  printed (snd (process_manifest Latest [newline] same_answers sample_content))
    = [].
Proof.
  destruct (@own_version_noop Latest [newline] same_answers sample_content
              same_answers_own_sample) as (_ & H2 & H3 & _).
  split; [apply H3; reflexivity | exact H2].
Defined.

(** C7 as stated fails: on [crlf_content], a file with a carriage return
    before each newline and no entry, the lookup answers every entry its
    own version and no line is rebuilt, yet the file written, with the
    newline for line separator, is [crlf_translated] and not the file
    read. *)
Lemma own_version_noop_counterexample :
  (forall i line e,
     nth_error (readlines crlf_content) i = Some line ->
     in_deps (state_at Latest same_answers (readlines crlf_content) i) = true ->
     classify Latest (strip line) = Some e ->
     same_answers (entry_name e) = Some (entry_version e)) /\
  process_manifest Latest [newline] same_answers crlf_content
    = (crlf_translated, []) /\
  crlf_translated <> crlf_content.
Proof.
  split; [exact same_answers_own_crlf|].
  split; [reflexivity | discriminate].
Qed.

(* ================================================================== *)
(** ** The file written, read again *)

Lemma two_answers_line_free : line_free two_answers.
Proof.
  intros name latest H. unfold two_answers in H.
  destruct (str_eqb name (lit "serde")); [injection H as <-; reflexivity|].
  destruct (str_eqb name (lit "libc")); [injection H as <-; reflexivity|].
  discriminate H.
Qed.

(** X1. In both scripts, with the newline for line separator and a lookup
    none of whose answers holds a newline or a carriage return, the file
    written carries the same sections as the file read: a run over the
    first [i] lines of the file written leaves the flag as a run over the
    first [i] lines of the file read does, for every [i] and every second
    lookup. *)
Theorem sections_preserved (v : variant) (r r' : str -> option str)
  (content : str) (i : nat) :
  line_free r ->
  in_deps (state_at v r'
             (readlines (fst (process_manifest v [newline] r content))) i) =
  in_deps (state_at v r (readlines content) i).
Proof.
  intros L. rewrite (readlines_written v L content).
  rewrite !state_at_in_deps, process_file_outputs. cbn [fst].
  rewrite outputs_firstn. apply flag_after_outputs.
Qed.

Lemma sections_preserved_witness :
  in_deps (state_at Latest no_answer
             (readlines (fst (process_manifest Latest [newline] two_answers
                                sample_content))) 4) = true.
Proof.
  rewrite (@sections_preserved Latest two_answers no_answer sample_content 4
             two_answers_line_free).
  reflexivity.
Defined.

(** X2. In both scripts, with the newline for line separator and a lookup
    none of whose answers holds a double quote, a newline or a carriage
    return, a second run of [process_file] on the file the first wrote
    writes the same file again and prints nothing: every rebuilt line is
    read back as its entry with the version the lookup answers. *)
Theorem second_run_fixed (v : variant) (r : str -> option str)
  (content : str) :
  quote_free r -> line_free r ->
  fst (process_manifest v [newline] r
         (fst (process_manifest v [newline] r content))) =
    fst (process_manifest v [newline] r content) /\
  printed (snd (process_manifest v [newline] r
                  (fst (process_manifest v [newline] r content)))) = [].
Proof.
  intros Q L.
  pose proof (readlines_written v L content) as E.
  rewrite process_file_outputs in E. cbn [fst] in E.
  destruct (outputs_again v Q (readlines content) false) as [H1 H2].
  set (out := fst (process_manifest v [newline] r content)) in *.
  assert (out = translate_out [newline]
                  (concat (outputs v r false (readlines content)))) as Eo.
  { subst out. unfold process_manifest, writelines.
    rewrite process_file_outputs. reflexivity. }
  unfold process_manifest, writelines. cbn [fst snd].
  rewrite E, !process_file_outputs. cbn [fst snd].
  rewrite H1, H2, Eo. auto.
Qed.

Lemma second_run_fixed_witness :
  fst (process_manifest Latest [newline] two_answers
         (fst (process_manifest Latest [newline] two_answers sample_content)))
  = fst (process_manifest Latest [newline] two_answers sample_content).
Proof.
  destruct (@second_run_fixed Latest two_answers sample_content
              two_answers_quote_free two_answers_line_free) as [H _].
  exact H.
Defined.
